(** * Solana Playground: program-info state and tutorial filters

    A shallow embedding of
    - [client/src/views/main/primary/Tutorials/filters.ts] ([sortByLevel]);
    - the program-info module ([storage.read], [storage.write], [derive.pk],
      [_PgProgramInfo.fetch], [_PgProgramInfo.fetchIdl]).

    JavaScript values that travel through [JSON] are modelled by the
    inductive type [value]; asynchronous functions become computations in a
    state-and-exception monad over the [World] (virtual filesystem, console,
    RPC endpoint).  What the language runtime and the libraries provide
    ([JSON], ed25519, Anchor, pako) is a parameter, the class [Externals]. *)

From Stdlib Require Import ZArith Lia Ascii String Strings.Byte.
From stdpp Require Import base gmap strings list pretty.

#[local] Set Warnings "-register-all".

Local Open Scope Z_scope.

(** ** Tutorial filters *)

Module Tutorials.

(** [Array.prototype.indexOf]: position of the first element strictly equal
    to [x], or [-1]. *)
Fixpoint indexOf_from (x : string) (l : list string) (i : Z) : Z :=
  match l with
  | [] => -1
  | y :: l' => if decide (y = x) then i else indexOf_from x l' (i + 1)
  end.

Definition indexOf (l : list string) (x : string) : Z := indexOf_from x l 0.

(** [a.level] occurs strictly before [b.level]: positions [i < j]. *)
Definition occurs_before (l : list string) (x y : string) : Prop :=
  ∃ i j : nat, l !! i = Some x ∧ l !! j = Some y ∧ (i < j)%nat.

Section Filters.
(** [TUTORIAL_LEVELS] is imported from [utils/pg]; [TutorialLevel] is the
    union of its members. *)
Variable TUTORIAL_LEVELS : list string.

(** [T extends { level: TutorialLevel }] *)
Context {T : Type} (level : T → string).

Definition sortByLevel (a b : T) : Z :=
  indexOf TUTORIAL_LEVELS (level a) - indexOf TUTORIAL_LEVELS (level b).
End Filters.

End Tutorials.

(** ** JavaScript values *)

(** Values that travel through [JSON.stringify] and [JSON.parse], together
    with [undefined] (the value of a missing property).  Numbers are the
    integers: the only numbers the program inspects are bytes. *)
Inductive value : Type :=
| VUndefined
| VNull
| VBool (b : bool)
| VNum (n : Z)
| VStr (s : string)
| VArr (l : list value)
| VObj (fields : list (string * value)).

(** The argument of [throw]. *)
Record Error := { message : string }.

Inductive outcome (A : Type) : Type :=
| Returned (a : A)
| Thrown (e : Error).
Arguments Returned {A} a.
Arguments Thrown {A} e.

(** [ToBoolean]. *)
Definition truthy (v : value) : bool :=
  match v with
  | VUndefined | VNull => false
  | VBool b => b
  | VNum n => negb (n =? 0)
  | VStr s => negb (String.eqb s "")
  | VArr _ | VObj _ => true
  end.

Fixpoint assoc (k : string) (fields : list (string * value)) : value :=
  match fields with
  | [] => VUndefined
  | (k', v) :: rest => if String.eqb k' k then v else assoc k rest
  end.

(** [v.k]: a [TypeError] on [null] and [undefined], [undefined] where the
    property is missing. *)
Definition get (v : value) (k : string) : outcome value :=
  match v with
  | VUndefined | VNull =>
      Thrown {| message := "Cannot read properties of null" |}
  | VObj fields => Returned (assoc k fields)
  | _ => Returned VUndefined
  end.

(** The property [k] of the object literal [{...v}]: spreading [null],
    [undefined] or a primitive copies no property named [k]. *)
Definition spread (v : value) (k : string) : value :=
  match v with
  | VObj fields => assoc k fields
  | _ => VUndefined
  end.

(** ** Bytes and big numbers *)

Abbreviation Uint8Array := (list Byte.byte).

Definition Z_of_byte (b : Byte.byte) : Z := Z.of_N (Byte.to_N b).

(** [ToUint8]: the number modulo [2^8]. *)
Definition byte_of_Z (n : Z) : Byte.byte :=
  match Byte.of_N (Z.to_N (n mod 256)) with
  | Some b => b
  | None => Byte.x00
  end.

(** Digits of [n] in [base], most significant first, none for [0]. *)
Fixpoint digits_fuel (base : Z) (fuel : nat) (n : Z) : list Z :=
  match fuel with
  | O => []
  | S f => if n <=? 0 then []
           else digits_fuel base f (n / base) ++ [n mod base]
  end.

Definition digits (base n : Z) : list Z :=
  digits_fuel base (S (Z.to_nat (Z.log2 n))) n.

Definition of_digits (base : Z) (ds : list Z) : Z :=
  fold_left (λ acc d, acc * base + d) ds 0.

Fixpoint leading {A} (p : A → bool) (l : list A) : nat :=
  match l with
  | x :: l' => if p x then S (leading p l') else O
  | [] => O
  end.

(** [new BN(bytes)]: the bytes read as a big-endian number. *)
Definition BN (bytes : Uint8Array) : Z := of_digits 256 (Z_of_byte <$> bytes).

(** [bn.byteLength()] *)
Definition byteLength (n : Z) : Z :=
  if n <=? 0 then 0 else Z.log2 n / 8 + 1.

(** [bn.toArrayLike(Buffer)] copied to the end of a zero-filled buffer of
    [len] bytes. *)
Fixpoint be_bytes (len : nat) (n : Z) : Uint8Array :=
  match len with
  | O => []
  | S k => be_bytes k (n / 256) ++ [byte_of_Z (n mod 256)]
  end.

(** ** Base58 (the [bs58] package used by [PublicKey]) *)

Module bs58.

Definition ALPHABET : list ascii :=
  list_ascii_of_string
    "123456789ABCDEFGHJKLMNPQRSTUVWXYZabcdefghijkmnopqrstuvwxyz".

Definition LEADER : ascii := "1"%char.

Definition digit_char (d : Z) : ascii := nth (Z.to_nat d) ALPHABET LEADER.

Fixpoint index_from (c : ascii) (l : list ascii) (i : Z) : option Z :=
  match l with
  | [] => None
  | c' :: l' => if Ascii.eqb c' c then Some i else index_from c l' (i + 1)
  end.

Definition char_digit (c : ascii) : option Z := index_from c ALPHABET 0.

Definition is_zero_byte (b : Byte.byte) : bool := Z_of_byte b =? 0.

(** One [LEADER] per leading zero byte, then the number in base 58. *)
Definition encode (source : Uint8Array) : string :=
  string_of_list_ascii
    (replicate (leading is_zero_byte source) LEADER
     ++ (digit_char <$> digits 58 (BN source))).

(** [None] stands for the error raised on a character outside the
    alphabet. *)
Definition decode (source : string) : option Uint8Array :=
  ds ← mapM char_digit (list_ascii_of_string source);
  Some (replicate (leading (Z.eqb 0) ds) Byte.x00
        ++ (byte_of_Z <$> digits 256 (of_digits 58 ds))).

End bs58.

(** ** The [@solana/web3.js] objects the module handles *)

Definition byte_eq_of_N (a b : Byte.byte) (H : Byte.to_N a = Byte.to_N b) : a = b :=
  match eq_trans (eq_sym (Byte.of_to_N a))
                 (eq_trans (f_equal Byte.of_N H) (Byte.of_to_N b))
        in _ = o return match o with Some c => a = c | None => True end
  with eq_refl => eq_refl end.

#[global] Instance byte_eq_dec : EqDecision Byte.byte := λ a b,
  match decide (Byte.to_N a = Byte.to_N b) with
  | left H => left (byte_eq_of_N a b H)
  | right H => right (λ E : a = b, H (f_equal Byte.to_N E))
  end.

Definition error {A} (msg : string) : outcome A := Thrown {| message := msg |}.

Module PublicKey.

(** A public key is held as a big number. *)
Record t := { _bn : Z }.

Definition PUBLIC_KEY_LENGTH : nat := 32.

(** The length check that ends the constructor. *)
Definition of_bn (n : Z) : outcome t :=
  if byteLength n >? Z.of_nat PUBLIC_KEY_LENGTH
  then error "Invalid public key input"
  else Returned {| _bn := n |}.

(** [new PublicKey(s)] for a string: base58, exactly 32 bytes. *)
Definition of_string (s : string) : outcome t :=
  match bs58.decode s with
  | None => error "Non-base58 character"
  | Some decoded =>
      if bool_decide (length decoded = PUBLIC_KEY_LENGTH)
      then of_bn (BN decoded)
      else error "Invalid public key input"
  end.

(** [new PublicKey(buffer)] *)
Definition of_bytes (buffer : Uint8Array) : outcome t := of_bn (BN buffer).

Definition toBuffer (pk : t) : Uint8Array := be_bytes PUBLIC_KEY_LENGTH (_bn pk).

Definition toBase58 (pk : t) : string := bs58.encode (toBuffer pk).

(** What the constructor guarantees of every key it returns. *)
Definition valid (pk : t) : Prop := 0 ≤ _bn pk < 2 ^ 256.

End PublicKey.

#[global] Instance PublicKey_eq_dec : EqDecision PublicKey.t.
Proof. solve_decision. Defined.

(** The decoded IDL account of Anchor. *)
Record IdlAccount := {
  idl_authority : PublicKey.t;
  idl_data : Uint8Array;
}.

(** What the language runtime and the libraries provide and this module only
    calls. *)
Class Externals := {
  JSON_stringify : value → string;
  JSON_parse : string → outcome value;
  (** [ToNumber] then [ToUint8] of a value that is not a number *)
  ToUint8_other : value → Byte.byte;
  (** [Uint8Array.from] of a value that is not an array *)
  Uint8Array_from_other : value → Uint8Array;
  (** [new PublicKey(v)] of a value that is not a string *)
  PublicKey_of_other : value → outcome PublicKey.t;
  (** the ed25519 public key of a 32-byte private scalar *)
  ed25519_getPublicKey : Uint8Array → Uint8Array;
  (** Anchor: [idlAddress], [decodeIdlAccount] *)
  idlAddress : PublicKey.t → outcome PublicKey.t;
  decodeIdlAccount : Uint8Array → outcome IdlAccount;
  (** pako: [inflate] *)
  inflate : Uint8Array → outcome Uint8Array;
  (** [PgBytes.toUtf8] *)
  toUtf8 : Uint8Array → string;
}.

(** [Array.from(bytes)] *)
Definition Array_from (bytes : Uint8Array) : value :=
  VArr ((λ b, VNum (Z_of_byte b)) <$> bytes).

Definition ToUint8 `{Externals} (v : value) : Byte.byte :=
  match v with
  | VNum n => byte_of_Z n
  | _ => ToUint8_other v
  end.

(** [Uint8Array.from(v)] *)
Definition Uint8Array_from `{Externals} (v : value) : Uint8Array :=
  match v with
  | VArr l => ToUint8 <$> l
  | _ => Uint8Array_from_other v
  end.

(** [new PublicKey(v)] for a value read from a file. *)
Definition PublicKey_new `{Externals} (v : value) : outcome PublicKey.t :=
  match v with
  | VStr s => PublicKey.of_string s
  | _ => PublicKey_of_other v
  end.

Module Keypair.

Record t := {
  _publicKey : Uint8Array;
  secretKey : Uint8Array;
}.

(** The getter [publicKey]. *)
Definition publicKey (kp : t) : PublicKey.t :=
  {| PublicKey._bn := BN (_publicKey kp) |}.

(** [Keypair.fromSecretKey(secretKey)], validation included: the last 32
    bytes must be the public key of the first 32. *)
Definition fromSecretKey `{Externals} (sk : Uint8Array) : outcome t :=
  if bool_decide (length sk = 64%nat) then
    let publicKey := drop 32 sk in
    let privateScalar := take 32 sk in
    let computedPublicKey := ed25519_getPublicKey privateScalar in
    if bool_decide (take 32 computedPublicKey = publicKey)
    then Returned {| _publicKey := publicKey; secretKey := sk |}
    else error "provided secretKey is invalid"
  else error "bad secret key size".

(** A keypair whose two halves belong together. *)
Definition valid `{Externals} (kp : t) : Prop :=
  length (secretKey kp) = 64%nat
  ∧ _publicKey kp = drop 32 (secretKey kp)
  ∧ take 32 (ed25519_getPublicKey (take 32 (secretKey kp))) = _publicKey kp.

End Keypair.

(** ** Program info state *)

Record ImportedProgram := {
  buffer : Uint8Array;
  fileName : string;
}.

(** [uuid] is a string or [null], [idl] an Anchor IDL or [null]: both are
    carried as the values they are. *)
Record ProgramInfo := {
  uuid : value;
  kp : option Keypair.t;
  customPk : option PublicKey.t;
  idl : value;
  importedProgram : option ImportedProgram;
}.

Definition defaultState : ProgramInfo := {|
  uuid := VNull;
  kp := None;
  customPk := None;
  idl := VNull;
  importedProgram := None;
|}.

(** ** The world the asynchronous functions run in *)

Record AccountInfo := { data : Uint8Array }.

(** [PgConnection.current]: whether it is ready, and what the endpoint
    answers to [getAccountInfo], which may depend on the calls made so far. *)
Record Connection := {
  isReady : bool;
  respond : list PublicKey.t → PublicKey.t → outcome (option AccountInfo);
}.

Inductive FsOp :=
| FsRead (path : string)
| FsWrite (path content : string).

Record World := {
  (** [PgExplorer.currentWorkspaceName] *)
  currentWorkspaceName : option string;
  (** the files of [PgExplorer.fs], by workspace and relative path *)
  files : gmap (string * string) string;
  (** the accesses made to [PgExplorer.fs] *)
  fs_ops : list FsOp;
  (** the lines printed by [console.log] *)
  console : list string;
  (** the state of [PgProgramInfo] *)
  program_info : ProgramInfo;
  connection : Connection;
  (** the addresses [getAccountInfo] was called with *)
  rpc_calls : list PublicKey.t;
}.

Definition M (A : Type) : Type := World → outcome A * World.

#[global] Instance M_ret : MRet M := λ A a w, (Returned a, w).

#[global] Instance M_bind : MBind M := λ A B f m w,
  match m w with
  | (Returned a, w') => f a w'
  | (Thrown e, w') => (Thrown e, w')
  end.

Definition gets {A} (f : World → A) : M A := λ w, (Returned (f w), w).

(** A synchronous call that may throw. *)
Definition lift {A} (o : outcome A) : M A := λ w, (o, w).

(** [try { x = m } catch { ... }] where the handler leaves the function: the
    outcome of [m] is handed to the code that follows. *)
Definition attempt {A} (m : M A) : M (outcome A) := λ w,
  let (r, w') := m w in (Returned r, w').

(** [try { m } catch (e) { handler e }] *)
Definition try_catch {A} (m : M A) (handler : Error → M A) : M A := λ w,
  match m w with
  | (Returned a, w') => (Returned a, w')
  | (Thrown e, w') => handler e w'
  end.

Definition console_log (line : string) : M unit := λ w,
  (Returned tt,
   {| currentWorkspaceName := currentWorkspaceName w;
      files := files w;
      fs_ops := fs_ops w;
      console := console w ++ [line];
      program_info := program_info w;
      connection := connection w;
      rpc_calls := rpc_calls w |}).

(** [await conn.getAccountInfo(address)] on the current connection. *)
Definition getAccountInfo (address : PublicKey.t) : M (option AccountInfo) := λ w,
  (respond (connection w) (rpc_calls w) address,
   {| currentWorkspaceName := currentWorkspaceName w;
      files := files w;
      fs_ops := fs_ops w;
      console := console w;
      program_info := program_info w;
      connection := connection w;
      rpc_calls := rpc_calls w ++ [address] |}).

(** The answer the endpoint gives to the next call. *)
Definition answer (w : World) (address : PublicKey.t)
  : outcome (option AccountInfo) :=
  respond (connection w) (rpc_calls w) address.

(** The world after [getAccountInfo address]. *)
Definition called (w : World) (address : PublicKey.t) : World :=
  (getAccountInfo address w).2.

(** The world after [console.log line]. *)
Definition logged (w : World) (line : string) : World :=
  (console_log line w).2.

Definition workspace_key (w : World) (path : string) : string * string :=
  (default ""%string (currentWorkspaceName w), path).

(** Modelled from the spec: [PgExplorer.fs.writeFile], which is not among the
    sources; the program-info record is mirrored to a file of the virtual
    filesystem, so writing stores the content under the path in the current
    workspace. *)
Definition fs_writeFile (path content : string) : M unit := λ w,
  (Returned tt,
   {| currentWorkspaceName := currentWorkspaceName w;
      files := <[workspace_key w path := content]> (files w);
      fs_ops := fs_ops w ++ [FsWrite path content];
      console := console w;
      program_info := program_info w;
      connection := connection w;
      rpc_calls := rpc_calls w |}).

(** Modelled from the spec: [PgExplorer.fs.readToJSON], which is not among the
    sources; it reads the file under the path in the current workspace and
    parses it as JSON, and fails when the file is missing or is not JSON. *)
Definition fs_readToJSON `{Externals} (path : string) : M value := λ w,
  (match files w !! workspace_key w path with
   | Some content => JSON_parse content
   | None => error "ENOENT: no such file or directory"
   end,
   {| currentWorkspaceName := currentWorkspaceName w;
      files := files w;
      fs_ops := fs_ops w ++ [FsRead path];
      console := console w;
      program_info := program_info w;
      connection := connection w;
      rpc_calls := rpc_calls w |}).

(** [!PgExplorer.currentWorkspaceName] *)
Definition no_workspace (w : World) : bool :=
  match currentWorkspaceName w with
  | None => true
  | Some name => String.eqb name ""
  end.

(** ** [storage] *)

Module storage.
Section Storage.
Context `{Externals}.

(** Relative path to program info *)
Definition PATH : string := ".workspace/program-info.json".

(** Read from storage and deserialize the data.  Of the properties the spread
    copies, the record keeps the two that [ProgramInfo] declares. *)
Definition read : M ProgramInfo :=
  closed ← gets no_workspace;
  if closed : bool then mret defaultState
  else
    attempted ← attempt (fs_readToJSON PATH);
    match attempted with
    | Thrown _ => mret defaultState
    | Returned serializedState =>
        kp_field ← lift (get serializedState "kp");
        kp' ← (if truthy kp_field
               then k ← lift (Keypair.fromSecretKey
                                (Uint8Array_from kp_field));
                    mret (Some k)
               else mret None);
        customPk_field ← lift (get serializedState "customPk");
        customPk' ← (if truthy customPk_field
                     then p ← lift (PublicKey_new customPk_field);
                          mret (Some p)
                     else mret None);
        mret {| uuid := spread serializedState "uuid";
                idl := spread serializedState "idl";
                kp := kp';
                customPk := customPk';
                importedProgram := importedProgram defaultState |}
    end.

(** The object [write] builds: the four fields, no spread. *)
Definition serializedState (state : ProgramInfo) : value :=
  VObj [ ("uuid", uuid state);
         ("idl", idl state);
         ("kp", match kp state with
                | Some k => Array_from (Keypair.secretKey k)
                | None => VNull
                end);
         ("customPk", match customPk state with
                      | Some p => VStr (PublicKey.toBase58 p)
                      | None => VNull
                      end) ]%string.

(** Serialize the data and write to storage. *)
Definition write (state : ProgramInfo) : M unit :=
  closed ← gets no_workspace;
  if closed : bool then mret tt
  else fs_writeFile PATH (JSON_stringify (serializedState state)).
End Storage.
End storage.

(** ** Derived state *)

Module derive.

(** Get the program's public key.  Custom public key has priority if it's
    specified. *)
Definition pk (state : ProgramInfo) : option PublicKey.t :=
  match customPk state with
  | Some custom => Some custom
  | None =>
      match kp state with
      | Some k => Some (Keypair.publicKey k)
      | None => None
      end
  end.

End derive.

(** ** [_PgProgramInfo] *)

(** What [fetch] returns; a missing [authority] is [None]. *)
Record OnChain := {
  deployed : bool;
  authority : option PublicKey.t;
  upgradable : bool;
}.

(** What [fetchIdl] returns. *)
Record FetchedIdl := {
  fetched_idl : value;
  fetched_authority : PublicKey.t;
}.

Module PgProgramInfo.
Section Methods.
Context `{Externals}.

(** [PgProgramInfo.pk]: the derived public key of the current state. *)
Definition pk : M (option PublicKey.t) :=
  gets (λ w, derive.pk (program_info w)).

(** Get the current program's pubkey as base58 string. *)
Definition getPkStr : M (option string) :=
  p ← pk; mret (PublicKey.toBase58 <$> p).

(** Get the JSON.stringified IDL from state. *)
Definition getIdlStr : M (option string) :=
  i ← gets (λ w, idl (program_info w));
  if truthy i then mret (Some (JSON_stringify i)) else mret None.

(** [data.at(12)] as a condition: a byte that exists and is not [0]. *)
Definition authorityExists (info : option AccountInfo) : bool :=
  match info with
  | Some i =>
      match data i !! 12%nat with
      | Some b => negb (Z_of_byte b =? 0)
      | None => false
      end
  | None => false
  end.

(** The [try] block of [fetch]. *)
Definition fetch_try (programId : PublicKey.t) : M (option OnChain) :=
  programAccountInfo ← getAccountInfo programId;
  let deployed := bool_decide (is_Some programAccountInfo) in
  match programAccountInfo with
  | None =>
      mret (Some {| deployed := deployed; authority := None;
                    upgradable := true |})
  | Some info =>
      let programDataPkBuffer := drop 4 (data info) in
      programDataPk ← lift (PublicKey.of_bytes programDataPkBuffer);
      programDataAccountInfo ← getAccountInfo programDataPk;
      (* Check if program authority exists *)
      if negb (authorityExists programDataAccountInfo)
      then mret (Some {| deployed := deployed; authority := None;
                         upgradable := false |})
      else
        let upgradeAuthorityPkBuffer :=
          match programDataAccountInfo with
          | Some i => take 32 (drop 13 (data i))
          | None => []
          end in
        upgradeAuthorityPk ←
          lift (PublicKey.of_bytes upgradeAuthorityPkBuffer);
        mret (Some {| deployed := deployed;
                      authority := Some upgradeAuthorityPk;
                      upgradable := true |})
  end.

(** [programId] when given, [PgProgramInfo.pk] otherwise. *)
Definition resolve (programId current : option PublicKey.t)
  : option PublicKey.t :=
  match programId with
  | Some p => Some p
  | None => current
  end.

(** Fetch the program from chain; [None] is [undefined]. *)
Definition fetch (programId : option PublicKey.t) : M (option OnChain) :=
  conn ← gets connection;
  if negb (isReady conn) then mret None
  else
    current ← pk;
    match resolve programId current with
    | None => mret None
    | Some programId =>
        try_catch
          (fetch_try programId)
          (λ e,
             console_log ("Could not get authority: " +:+ message e);;
             mret None)
    end.

(** Fetch the Anchor IDL from chain; [None] is [null]. *)
Definition fetchIdl (programId : option PublicKey.t) : M (option FetchedIdl) :=
  current ← pk;
  match resolve programId current with
  | None => mret None
  | Some programId =>
      idlPk ← lift (idlAddress programId);
      accountInfo ← getAccountInfo idlPk;
      match accountInfo with
      | None => mret None
      | Some info =>
          (* Chop off account discriminator *)
          idlAccount ← lift (decodeIdlAccount (drop 8 (data info)));
          inflatedIdl ← lift (inflate (idl_data idlAccount));
          idl ← lift (JSON_parse (toUtf8 inflatedIdl));
          mret (Some {| fetched_idl := idl;
                        fetched_authority := idl_authority idlAccount |})
      end
  end.

(** The program id a call works on, in a given world. *)
Definition requested (programId : option PublicKey.t) (w : World)
  : option PublicKey.t :=
  resolve programId (derive.pk (program_info w)).
End Methods.
End PgProgramInfo.

(** ** A reference runtime

    A small implementation of the external functions, enough to run the model
    on examples: a JSON printer and parser for the values above, and
    stand-ins for the libraries. *)

Module Reference.

Definition quote_char : ascii := ascii_of_nat 34.
Definition backslash : ascii := ascii_of_nat 92.

Fixpoint escape (s : list ascii) : list ascii :=
  match s with
  | [] => []
  | c :: r =>
      if Ascii.eqb c quote_char || Ascii.eqb c backslash
      then backslash :: c :: escape r
      else c :: escape r
  end.

Definition quoted (s : string) : list ascii :=
  quote_char :: escape (list_ascii_of_string s) ++ [quote_char].

Fixpoint join (sep : list ascii) (parts : list (list ascii)) : list ascii :=
  match parts with
  | [] => []
  | [p] => p
  | p :: rest => p ++ sep ++ join sep rest
  end.

Definition chars (s : string) : list ascii := list_ascii_of_string s.

Definition is_undefined (v : value) : bool :=
  match v with VUndefined => true | _ => false end.

(** [JSON.stringify]: properties whose value is [undefined] are left out,
    [undefined] in an array is printed as [null]. *)
Fixpoint print (v : value) : list ascii :=
  match v with
  | VUndefined | VNull => chars "null"
  | VBool true => chars "true"
  | VBool false => chars "false"
  | VNum n => chars (pretty n)
  | VStr s => quoted s
  | VArr l => chars "[" ++ join (chars ",") (print <$> l) ++ chars "]"
  | VObj fields =>
      chars "{"
      ++ join (chars ",")
           (concat
              ((λ kv : string * value,
                  if is_undefined kv.2 then []
                  else [quoted kv.1 ++ chars ":" ++ print kv.2]) <$> fields))
      ++ chars "}"
  end.

Definition stringify (v : value) : string := string_of_list_ascii (print v).

Fixpoint strip_prefix (p s : list ascii) : option (list ascii) :=
  match p, s with
  | [], _ => Some s
  | c :: p', d :: s' => if Ascii.eqb c d then strip_prefix p' s' else None
  | _ :: _, [] => None
  end.

Fixpoint parse_string (s acc : list ascii) : option (string * list ascii) :=
  match s with
  | [] => None
  | c :: r =>
      if Ascii.eqb c quote_char
      then Some (string_of_list_ascii (reverse acc), r)
      else if Ascii.eqb c backslash
      then match r with
           | d :: r' => parse_string r' (d :: acc)
           | [] => None
           end
      else parse_string r (c :: acc)
  end.

Definition digit_of (c : ascii) : option Z :=
  let n := Z.of_nat (nat_of_ascii c) in
  if (48 <=? n) && (n <=? 57) then Some (n - 48) else None.

Fixpoint parse_digits (s : list ascii) (acc : Z) : Z * list ascii :=
  match s with
  | c :: r =>
      match digit_of c with
      | Some d => parse_digits r (acc * 10 + d)
      | None => (acc, s)
      end
  | [] => (acc, s)
  end.

Definition starts_with (c : string) (s : list ascii) : option (list ascii) :=
  strip_prefix (chars c) s.

Fixpoint parse_value (fuel : nat) (s : list ascii) : option (value * list ascii) :=
  match fuel with
  | O => None
  | S f =>
      match starts_with "null" s, starts_with "true" s, starts_with "false" s with
      | Some r, _, _ => Some (VNull, r)
      | _, Some r, _ => Some (VBool true, r)
      | _, _, Some r => Some (VBool false, r)
      | None, None, None =>
          match s with
          | [] => None
          | c :: r =>
              if Ascii.eqb c quote_char then
                '(str, r') ← parse_string r []; Some (VStr str, r')
              else if Ascii.eqb c "["%char then
                match starts_with "]" r with
                | Some r' => Some (VArr [], r')
                | None => parse_elements f r []
                end
              else if Ascii.eqb c "{"%char then
                match starts_with "}" r with
                | Some r' => Some (VObj [], r')
                | None => parse_members f r []
                end
              else if Ascii.eqb c "-"%char then
                match r with
                | d :: _ =>
                    match digit_of d with
                    | Some _ =>
                        let '(n, r') := parse_digits r 0 in Some (VNum (- n), r')
                    | None => None
                    end
                | [] => None
                end
              else
                match digit_of c with
                | Some _ =>
                    let '(n, r') := parse_digits s 0 in Some (VNum n, r')
                | None => None
                end
          end
      end
  end
with parse_elements (fuel : nat) (s : list ascii) (acc : list value)
  : option (value * list ascii) :=
  match fuel with
  | O => None
  | S f =>
      '(v, r) ← parse_value f s;
      match starts_with "," r, starts_with "]" r with
      | Some r', _ => parse_elements f r' (v :: acc)
      | _, Some r' => Some (VArr (reverse (v :: acc)), r')
      | None, None => None
      end
  end
with parse_members (fuel : nat) (s : list ascii) (acc : list (string * value))
  : option (value * list ascii) :=
  match fuel with
  | O => None
  | S f =>
      match s with
      | c :: r =>
          if Ascii.eqb c quote_char then
            '(k, r1) ← parse_string r [];
            r2 ← starts_with ":" r1;
            '(v, r3) ← parse_value f r2;
            match starts_with "," r3, starts_with "}" r3 with
            | Some r', _ => parse_members f r' ((k, v) :: acc)
            | _, Some r' => Some (VObj (reverse ((k, v) :: acc)), r')
            | None, None => None
            end
          else None
      | [] => None
      end
  end.

(** [JSON.parse] *)
Definition parse (text : string) : outcome value :=
  let s := chars text in
  match parse_value (S (length s)) s with
  | Some (v, []) => Returned v
  | _ => error "Unexpected token in JSON"
  end.

(** A stand-in for the curve arithmetic of ed25519. *)
Definition getPublicKey (privateScalar : Uint8Array) : Uint8Array :=
  (λ b, byte_of_Z (3 * Z_of_byte b + 1)) <$> privateScalar.

Definition decode_account (bytes : Uint8Array) : outcome IdlAccount :=
  if bool_decide (length bytes < 36)%nat
  then error "Invalid account data"
  else Returned {| idl_authority := {| PublicKey._bn := BN (take 32 bytes) |};
                   idl_data := drop 36 bytes |}.

#[local] Instance externals : Externals := {|
  JSON_stringify := stringify;
  JSON_parse := parse;
  ToUint8_other := λ _, Byte.x00;
  Uint8Array_from_other := λ _, [];
  PublicKey_of_other := λ _, error "Invalid public key input";
  ed25519_getPublicKey := getPublicKey;
  idlAddress := λ p, Returned {| PublicKey._bn := (PublicKey._bn p + 1) `mod` 2 ^ 256 |};
  decodeIdlAccount := decode_account;
  inflate := λ bytes, Returned bytes;
  toUtf8 := string_of_list_byte;
|}.

End Reference.

(** ** Example worlds *)

Module Example.
Import Reference.

Definition LEVELS : list string :=
  ["Beginner"; "Intermediate"; "Advanced"; "Expert"]%string.

Definition privateScalar : Uint8Array := be_bytes 32 (7 * 2 ^ 250 + 2024).

Definition keypair : Keypair.t := {|
  Keypair._publicKey := getPublicKey privateScalar;
  Keypair.secretKey := privateScalar ++ getPublicKey privateScalar;
|}.

Definition programId : PublicKey.t := {| PublicKey._bn := 2 ^ 255 + 12345 |}.
Definition programDataPk : PublicKey.t := {| PublicKey._bn := 2 ^ 200 + 77 |}.
Definition upgradeAuthority : PublicKey.t := {| PublicKey._bn := 2 ^ 254 + 5 |}.

Definition hello_idl : value :=
  VObj [ ("version", VStr "0.1.0"); ("name", VStr "hello");
         ("instructions",
          VArr [VObj [("name", VStr "initialize"); ("accounts", VArr []);
                      ("args", VArr [])]]) ]%string.

Definition state : ProgramInfo := {|
  uuid := VStr "0b7e6c1e-5d0f-4a57-9d0c-2f5a4de1a9c3";
  kp := Some keypair;
  customPk := Some programId;
  idl := hello_idl;
  importedProgram :=
    Some {| buffer := be_bytes 4 2135247942; fileName := "hello.so" |};
|}.

(** The upgradeable loader's layout: a program account is a 4-byte tag and
    the address of the program data account; the program data account is a
    4-byte tag, an 8-byte slot, a 1-byte option tag and the authority. *)
Definition programAccount : AccountInfo :=
  {| data := be_bytes 4 (2 * 2 ^ 24) ++ PublicKey.toBuffer programDataPk |}.

Definition programDataAccount : AccountInfo :=
  {| data := be_bytes 4 (3 * 2 ^ 24) ++ be_bytes 8 99 ++ be_bytes 1 1
             ++ PublicKey.toBuffer upgradeAuthority ++ be_bytes 6 0 |}.

Definition mainnet : Connection := {|
  isReady := true;
  respond := λ _ address,
    if decide (address = programId) then Returned (Some programAccount)
    else if decide (address = programDataPk) then Returned (Some programDataAccount)
    else Returned None;
|}.

(** An endpoint on which nothing is deployed. *)
Definition localnet : Connection := {|
  isReady := true;
  respond := λ _ _, Returned None;
|}.

(** An endpoint whose accounts all hold three bytes. *)
Definition garbled : Connection := {|
  isReady := true;
  respond := λ _ _, Returned (Some {| data := be_bytes 3 66051 |});
|}.

Definition unreachable : Connection := {|
  isReady := true;
  respond := λ _ _, error "failed to get info about account";
|}.

Definition world (workspace : option string) (conn : Connection) : World := {|
  currentWorkspaceName := workspace;
  files := ∅;
  fs_ops := [];
  console := [];
  program_info := state;
  connection := conn;
  rpc_calls := [];
|}.

Definition open : World := world (Some "hello"%string) mainnet.
Definition closed : World := world None mainnet.
(** A workspace whose program-info file is not JSON. *)
Definition damaged : World := {|
  currentWorkspaceName := Some "hello"%string;
  files := {[ ("hello", ".workspace/program-info.json")%string
                := "{uuid:"%string ]};
  fs_ops := [];
  console := [];
  program_info := defaultState;
  connection := mainnet;
  rpc_calls := [];
|}.

(** A workspace whose program-info file holds [null]. *)
Definition emptied : World := {|
  currentWorkspaceName := Some "hello"%string;
  files := {[ ("hello", ".workspace/program-info.json")%string
                := "null"%string ]};
  fs_ops := [];
  console := [];
  program_info := defaultState;
  connection := mainnet;
  rpc_calls := [];
|}.

Definition offline : World := world (Some "hello"%string) unreachable.
Definition fresh : World := world (Some "hello"%string) localnet.
Definition corrupt : World := world (Some "hello"%string) garbled.

End Example.

(** ** More example worlds: damaged files, other endpoints *)

Module Scenario.
Import Reference Example.

(** The workspace [hello] with one program-info file. *)
Definition with_file (content : string) : World := {|
  currentWorkspaceName := Some "hello"%string;
  files := {[ ("hello", ".workspace/program-info.json")%string := content ]};
  fs_ops := [];
  console := [];
  program_info := defaultState;
  connection := mainnet;
  rpc_calls := [];
|}.

(** A file whose [kp] holds three numbers. *)
Definition short_key : World :=
  with_file (stringify (VObj [("uuid", VStr "u1");
                              ("kp", VArr [VNum 1; VNum 2; VNum 3])]%string)).

(** A file that is the empty object. *)
Definition bare : World := with_file "{}".

(** A file whose [customPk] has characters outside the base58 alphabet. *)
Definition bad_custom_key : World :=
  with_file (stringify (VObj [("kp", VNull); ("customPk", VStr "0OIl")]%string)).

(** A connection that is not ready. *)
Definition down : Connection := {|
  isReady := false;
  respond := λ _ _, error "failed to get info about account";
|}.

(** An endpoint where the program is owned by a loader that keeps the
    executable in the program account itself: the data is long. *)
Definition legacy : Connection := {|
  isReady := true;
  respond := λ _ address,
    if decide (address = programId)
    then Returned (Some {| data := be_bytes 4 2135247942 ++ be_bytes 40 (2 ^ 300 + 9) |})
    else Returned None;
|}.

(** An upgradeable program whose authority was given up: the option tag at
    byte 12 of the program data account is [0]. *)
Definition finalized : Connection := {|
  isReady := true;
  respond := λ _ address,
    if decide (address = programId) then Returned (Some programAccount)
    else if decide (address = programDataPk)
    then Returned (Some {| data := be_bytes 4 (3 * 2 ^ 24) ++ be_bytes 8 99
                                   ++ be_bytes 1 0 |})
    else Returned None;
|}.

(** The address the reference [idlAddress] gives for [programId]. *)
Definition idlPk : PublicKey.t :=
  {| PublicKey._bn := PublicKey._bn programId + 1 |}.

(** An IDL account as the reference decoder reads it: 8 bytes of
    discriminator, the authority, 4 bytes of length, the data. *)
Definition idl_account (text : string) : AccountInfo :=
  {| data := be_bytes 8 0 ++ PublicKey.toBuffer upgradeAuthority
             ++ be_bytes 4 (Z.of_nat (String.length text))
             ++ list_byte_of_string text |}.

(** An endpoint that holds the IDL of the program. *)
Definition anchor : Connection := {|
  isReady := true;
  respond := λ _ address,
    if decide (address = idlPk)
    then Returned (Some (idl_account (stringify hello_idl)))
    else Returned None;
|}.

(** An endpoint whose IDL account does not hold JSON. *)
Definition anchor_damaged : Connection := {|
  isReady := true;
  respond := λ _ address,
    if decide (address = idlPk)
    then Returned (Some (idl_account "{oops"))
    else Returned None;
|}.

Definition unready : World := world (Some "hello"%string) down.
Definition old_loader : World := world (Some "hello"%string) legacy.
Definition immutable : World := world (Some "hello"%string) finalized.
Definition with_idl : World := world (Some "hello"%string) anchor.
Definition with_damaged_idl : World := world (Some "hello"%string) anchor_damaged.

End Scenario.

(** * Properties *)

(** ** [sortByLevel] *)

Module TutorialsSpec.
Import Tutorials.

Lemma indexOf_from_shift x l i :
  indexOf_from x l i = -1 ∨
  ∃ n : nat, indexOf_from x l i = i + Z.of_nat n ∧ l !! n = Some x
             ∧ ∀ m : nat, l !! m = Some x → (n ≤ m)%nat.
Proof.
  revert i. induction l as [|y l IH]; intros i; simpl; [by left|].
  destruct (decide (y = x)) as [->|Hne].
  - right. exists 0%nat. split; [lia|]. split; [done|]. intros; lia.
  - destruct (IH (i + 1)) as [H|(n & Hn & Hl & Hmin)]; [by left|].
    right. exists (S n). split; [lia|]. split; [done|].
    intros [|m] Hm; simpl in Hm; [congruence|].
    apply Hmin in Hm. lia.
Qed.

Lemma indexOf_from_elem x l i :
  x ∈ l → indexOf_from x l i ≠ -1 ∨ i < 0.
Proof.
  revert i. induction l as [|y l IH]; intros i Hin; [by inversion Hin|].
  simpl. destruct (decide (y = x)) as [->|Hne].
  - destruct (decide (i = -1)); [right; lia | by left].
  - inversion Hin; subst; [done|].
    destruct (IH (i + 1)) as [H|H]; [done | by left | right; lia].
Qed.

(** On a member, [indexOf] is the position of the first occurrence. *)
Lemma indexOf_first l x :
  x ∈ l →
  ∃ n : nat, indexOf l x = Z.of_nat n ∧ l !! n = Some x
             ∧ ∀ m : nat, l !! m = Some x → (n ≤ m)%nat.
Proof.
  intros Hin. unfold indexOf.
  destruct (indexOf_from_shift x l 0) as [H|(n & Hn & Hl & Hmin)].
  - destruct (indexOf_from_elem x l 0 Hin); [done | lia].
  - exists n. split; [lia | done].
Qed.

(** Without duplicates, it is the position of the only occurrence. *)
Lemma indexOf_lookup l x (n : nat) :
  NoDup l → l !! n = Some x → indexOf l x = Z.of_nat n.
Proof.
  intros Hnd Hl.
  destruct (indexOf_first l x) as (k & Hk & Hlk & _).
  { apply list_elem_of_lookup. eauto. }
  rewrite Hk. f_equal. eapply NoDup_lookup; eauto.
Qed.

(** C10: on tutorials whose levels are members of [TUTORIAL_LEVELS] (a
    list without repetition), [sortByLevel] is an antisymmetric comparator:
    swapping the arguments negates the result, a tutorial compares equal to
    itself, and the result is negative exactly when the level of the first
    occurs strictly before the level of the second. *)
Theorem sortByLevel_comparator
    (TUTORIAL_LEVELS : list string) {T : Type} (level : T → string) (a b : T) :
  NoDup TUTORIAL_LEVELS →
  level a ∈ TUTORIAL_LEVELS →
  level b ∈ TUTORIAL_LEVELS →
  sortByLevel TUTORIAL_LEVELS level a b = - sortByLevel TUTORIAL_LEVELS level b a
  ∧ sortByLevel TUTORIAL_LEVELS level a a = 0
  ∧ (sortByLevel TUTORIAL_LEVELS level a b < 0
     ↔ occurs_before TUTORIAL_LEVELS (level a) (level b)).
Proof.
  intros Hnd Ha Hb. unfold sortByLevel.
  split; [lia|]. split; [lia|].
  destruct (indexOf_first _ _ Ha) as (i & Hi & Hli & _).
  destruct (indexOf_first _ _ Hb) as (j & Hj & Hlj & _).
  rewrite Hi, Hj. split.
  - intros Hlt. exists i, j. repeat split; [done | done | lia].
  - intros (i' & j' & Hi' & Hj' & Hlt).
    assert (i' = i) as -> by (eapply NoDup_lookup; eauto).
    assert (j' = j) as -> by (eapply NoDup_lookup; eauto).
    lia.
Qed.

Lemma sortByLevel_comparator_witness :
  let a := "Beginner"%string in
  let b := "Advanced"%string in
  sortByLevel Example.LEVELS id a b = - sortByLevel Example.LEVELS id b a
  ∧ sortByLevel Example.LEVELS id a a = 0
  ∧ (sortByLevel Example.LEVELS id a b < 0
     ↔ occurs_before Example.LEVELS a b).
Proof.
  apply (sortByLevel_comparator Example.LEVELS id
           "Beginner"%string "Advanced"%string).
  - apply (bool_decide_unpack _). vm_compute. reflexivity.
  - apply (bool_decide_unpack _). vm_compute. reflexivity.
  - apply (bool_decide_unpack _). vm_compute. reflexivity.
Defined.

(** Transitivity comes with the comparator being a difference of ranks. *)
Lemma sortByLevel_transitive
    (TUTORIAL_LEVELS : list string) {T : Type} (level : T → string) (a b c : T) :
  sortByLevel TUTORIAL_LEVELS level a b ≤ 0 →
  sortByLevel TUTORIAL_LEVELS level b c ≤ 0 →
  sortByLevel TUTORIAL_LEVELS level a c ≤ 0.
Proof. unfold sortByLevel. lia. Qed.

(** With a level listed twice, positions alone do not decide the sign. *)
Example sortByLevel_repeated_level :
  let levels := ["A"; "B"; "A"]%string in
  occurs_before levels "B" "A" ∧ sortByLevel levels id "B"%string "A"%string = 1.
Proof.
  split; [|reflexivity]. exists 1%nat, 2%nat.
  split; [reflexivity|]. split; [reflexivity | lia].
Qed.

Example sortByLevel_expert_after_beginner :
  sortByLevel Example.LEVELS id "Expert"%string "Beginner"%string = 3.
Proof. reflexivity. Qed.

End TutorialsSpec.

(** ** Derived public key *)

Module DeriveSpec.

(** C6: the effective public key is the custom key when there is one,
    otherwise the public key of the keypair when there is one, otherwise
    [null]; [PgProgramInfo.pk] reads it off the current state and leaves
    the world alone. *)
Theorem pk_priority (state : ProgramInfo) (w : World) :
  derive.pk state =
    match customPk state, kp state with
    | Some custom, _ => Some custom
    | None, Some k => Some (Keypair.publicKey k)
    | None, None => None
    end
  ∧ PgProgramInfo.pk w = (Returned (derive.pk (program_info w)), w).
Proof.
  split; [|reflexivity].
  unfold derive.pk. destruct (customPk state), (kp state); reflexivity.
Qed.

Example pk_custom_first :
  derive.pk Example.state = Some Example.programId.
Proof. reflexivity. Qed.

Example pk_of_keypair :
  derive.pk {| uuid := VNull; kp := Some Example.keypair; customPk := None;
               idl := VNull; importedProgram := None |}
  = Some (Keypair.publicKey Example.keypair).
Proof. reflexivity. Qed.

Example pk_default : derive.pk defaultState = None.
Proof. reflexivity. Qed.

End DeriveSpec.

(** ** [storage] without a workspace, and on a failed read *)

Ltac run :=
  unfold mbind, M_bind, mret, M_ret, gets, lift, attempt, try_catch,
    console_log, getAccountInfo, fs_writeFile, fs_readToJSON in *;
  simpl in *.

Module StorageGuards.
Section Guards.
Context `{Externals}.

Lemma no_workspace_absent (w : World) :
  currentWorkspaceName w = None → no_workspace w = true.
Proof. unfold no_workspace. by intros ->. Qed.

(** C9: with no workspace open, [read] returns the default state and
    [write] returns, and neither changes the world: no file is read or
    written, and the persisted file is as it was. *)
Theorem closed_workspace_untouched (state : ProgramInfo) (w : World) :
  currentWorkspaceName w = None →
  storage.read w = (Returned defaultState, w)
  ∧ storage.write state w = (Returned tt, w).
Proof.
  intros Hws. apply no_workspace_absent in Hws.
  unfold storage.read, storage.write. run. by rewrite Hws.
Qed.

(** C3: when reading or parsing the persisted file fails, [read] returns
    the default state, whose fields are all [null], and does not raise;
    the files are as they were. *)
Theorem read_failure_gives_default (w w' : World) (e : Error) :
  fs_readToJSON storage.PATH w = (Thrown e, w') →
  (∃ w'', storage.read w = (Returned defaultState, w'')
          ∧ files w'' = files w)
  ∧ uuid defaultState = VNull
  ∧ kp defaultState = None
  ∧ customPk defaultState = None
  ∧ idl defaultState = VNull
  ∧ importedProgram defaultState = None.
Proof.
  intros Hfail. split; [|done].
  unfold storage.read. run.
  destruct (no_workspace w); [by eexists|].
  injection Hfail as Hthrown Hw'. rewrite Hthrown. by eexists.
Qed.

(** The two ways [readToJSON] fails. *)
Lemma readToJSON_missing (w : World) :
  files w !! workspace_key w storage.PATH = None →
  ∃ e w', fs_readToJSON storage.PATH w = (Thrown e, w').
Proof. intros Hnone. run. rewrite Hnone. by eexists _, _. Qed.

Lemma readToJSON_malformed (w : World) (content : string) (e : Error) :
  files w !! workspace_key w storage.PATH = Some content →
  JSON_parse content = Thrown e →
  ∃ w', fs_readToJSON storage.PATH w = (Thrown e, w').
Proof. intros Hsome Hparse. run. rewrite Hsome, Hparse. by eexists. Qed.
End Guards.

Lemma closed_workspace_untouched_witness :
  @storage.read Reference.externals Example.closed
    = (Returned defaultState, Example.closed)
  ∧ @storage.write Reference.externals Example.state Example.closed
    = (Returned tt, Example.closed).
Proof.
  apply (@closed_workspace_untouched Reference.externals
           Example.state Example.closed).
  reflexivity.
Defined.

Lemma read_failure_gives_default_witness :
  (∃ w'', @storage.read Reference.externals Example.open
            = (Returned defaultState, w'')
          ∧ files w'' = files Example.open)
  ∧ uuid defaultState = VNull
  ∧ kp defaultState = None
  ∧ customPk defaultState = None
  ∧ idl defaultState = VNull
  ∧ importedProgram defaultState = None.
Proof.
  eapply (@read_failure_gives_default Reference.externals Example.open).
  vm_compute. reflexivity.
Defined.

Example read_damaged_file :
  (@storage.read Reference.externals Example.damaged).1
    = Returned defaultState.
Proof. vm_compute. reflexivity. Qed.

(** A file that parses is past the handler: what goes wrong afterwards, here
    the property access on [null], is raised. *)
Example read_null_file :
  (@storage.read Reference.externals Example.emptied).1
    = Thrown {| message := "Cannot read properties of null" |}.
Proof. vm_compute. reflexivity. Qed.

End StorageGuards.

(** ** [fetch] and [fetchIdl] *)

Module FetchSpec.
Import PgProgramInfo.

Section Fetch.
Context `{Externals}.

Lemma fetch_ready (programId : option PublicKey.t) (w : World) (p : PublicKey.t) :
  isReady (connection w) = true →
  requested programId w = Some p →
  fetch programId w =
    match fetch_try p w with
    | (Returned r, w') => (Returned r, w')
    | (Thrown e, w') =>
        (Returned None, logged w' ("Could not get authority: " +:+ message e))
    end.
Proof.
  unfold requested, fetch, pk. intros Hready Hp. run.
  rewrite Hready. simpl. rewrite Hp.
  by destruct (fetch_try p w) as [[r|e] w'].
Qed.

Lemma fetch_idle (programId : option PublicKey.t) (w : World) :
  isReady (connection w) = false ∨ requested programId w = None →
  fetch programId w = (Returned None, w).
Proof.
  unfold requested, fetch, pk. run.
  intros [Hready|Hp]; [by rewrite Hready|].
  destruct (isReady (connection w)); simpl; [by rewrite Hp | done].
Qed.

(** [fetch] never raises, whatever the endpoint does. *)
Lemma fetch_returns (programId : option PublicKey.t) (w : World) :
  ∃ r w', fetch programId w = (Returned r, w').
Proof.
  destruct (isReady (connection w)) eqn:Hready;
    [|rewrite fetch_idle; eauto].
  destruct (requested programId w) as [p|] eqn:Hp;
    [|rewrite fetch_idle; eauto].
  rewrite (fetch_ready _ _ p) by done.
  destruct (fetch_try p w) as [[r|e] w']; eauto.
Qed.

(** C8: on a ready connection and with a program id at hand, a program
    account that does not exist is reported as not deployed, upgradable
    and without authority. *)
Theorem fetch_not_deployed
    (programId : option PublicKey.t) (w : World) (p : PublicKey.t) :
  isReady (connection w) = true →
  requested programId w = Some p →
  answer w p = Returned None →
  fetch programId w =
    (Returned (Some {| deployed := false; authority := None;
                       upgradable := true |}),
     called w p).
Proof.
  intros Hready Hp Hnone. rewrite (fetch_ready _ _ p) by done.
  unfold fetch_try, answer, called in *. run. by rewrite Hnone.
Qed.

(** The calls [fetch_try] makes, by cases on what the endpoint answers. *)
Lemma fetch_try_calls (p : PublicKey.t) (w : World) :
  let w' := (fetch_try p w).2 in
  rpc_calls w' = rpc_calls w ++ [p]
  ∨ ∃ info q,
      answer w p = Returned (Some info)
      ∧ PublicKey.of_bytes (drop 4 (data info)) = Returned q
      ∧ rpc_calls w' = rpc_calls w ++ [p; q].
Proof.
  unfold fetch_try, answer. run.
  destruct (respond (connection w) (rpc_calls w) p) as [[info|]|e] eqn:E1;
    simpl; [|by left..].
  destruct (PublicKey.of_bytes (drop 4 (data info))) as [q|e] eqn:E2;
    simpl; [|by left].
  right. exists info, q. split; [done|]. split; [done|].
  assert ((rpc_calls w ++ [p]) ++ [q] = rpc_calls w ++ [p; q]) as Hassoc
    by (by rewrite <- app_assoc).
  destruct (respond (connection w) (rpc_calls w ++ [p]) q) as [info2|e];
    simpl; [|done].
  destruct (authorityExists info2); simpl; [|done].
  match goal with
  | |- context [PublicKey.of_bytes ?b] => by destruct (PublicKey.of_bytes b)
  end.
Qed.

Lemma logged_rpc_calls (w : World) (line : string) :
  rpc_calls (logged w line) = rpc_calls w.
Proof. reflexivity. Qed.

(** C7: [fetch] makes no call, or one call for the program account, or
    that call followed by one more; the second call is made only when
    the first returned an account, and its address is the public key
    made of that account's data from byte 4 on.  Nothing is asked
    twice for the sake of trying again. *)
Theorem fetch_calls_in_sequence (programId : option PublicKey.t) (w : World) :
  let w' := (fetch programId w).2 in
  rpc_calls w' = rpc_calls w
  ∨ (∃ p, requested programId w = Some p
          ∧ rpc_calls w' = rpc_calls w ++ [p])
  ∨ (∃ p info q,
        requested programId w = Some p
        ∧ answer w p = Returned (Some info)
        ∧ PublicKey.of_bytes (drop 4 (data info)) = Returned q
        ∧ rpc_calls w' = rpc_calls w ++ [p; q]).
Proof.
  simpl.
  destruct (isReady (connection w)) eqn:Hready;
    [|left; by rewrite fetch_idle; eauto].
  destruct (requested programId w) as [p|] eqn:Hp;
    [|left; by rewrite fetch_idle; eauto].
  right. rewrite (fetch_ready _ _ p) by done.
  pose proof (fetch_try_calls p w) as Hcalls. simpl in Hcalls.
  assert ((match fetch_try p w with
           | (Returned r, w') => (Returned r, w')
           | (Thrown e, w') =>
               (Returned None,
                logged w' ("Could not get authority: " +:+ message e))
           end).2.(rpc_calls) = rpc_calls (fetch_try p w).2) as ->.
  { by destruct (fetch_try p w) as [[r|e] w']. }
  destruct Hcalls as [H1|(info & q & Ha & Hq & H2)].
  - left. by exists p.
  - right. by exists p, info, q.
Qed.

Lemma fetchIdl_start (programId : option PublicKey.t) (w : World)
    (p idlPk : PublicKey.t) :
  requested programId w = Some p →
  idlAddress p = Returned idlPk →
  fetchIdl programId w =
    match answer w idlPk with
    | Returned None => (Returned None, called w idlPk)
    | Returned (Some info) =>
        (idlAccount ← lift (decodeIdlAccount (drop 8 (data info)));
         inflatedIdl ← lift (inflate (idl_data idlAccount));
         idl ← lift (JSON_parse (toUtf8 inflatedIdl));
         mret (Some {| fetched_idl := idl;
                       fetched_authority := idl_authority idlAccount |}))
          (called w idlPk)
    | Thrown e => (Thrown e, called w idlPk)
    end.
Proof.
  unfold requested, fetchIdl, pk, answer, called. intros Hp Hidl. run.
  rewrite Hp. simpl. rewrite Hidl.
  by destruct (respond (connection w) (rpc_calls w) idlPk) as [[info|]|e].
Qed.

(** C2, as the code has it: [fetch] never raises, and a failure inside
    its [try] block (an RPC call or the decoding of an address) is
    logged and answered with [undefined]; [fetchIdl] has no handler, and
    a failure of its RPC call or of the decoding of the account reaches
    the caller, with nothing logged. *)
Theorem fetch_catches_fetchIdl_raises
    (programId : option PublicKey.t) (w : World) :
  (∃ r w', fetch programId w = (Returned r, w'))
  ∧ (∀ p e w',
       isReady (connection w) = true →
       requested programId w = Some p →
       fetch_try p w = (Thrown e, w') →
       fetch programId w =
         (Returned None,
          logged w' ("Could not get authority: " +:+ message e)))
  ∧ (∀ p idlPk e,
       requested programId w = Some p →
       idlAddress p = Returned idlPk →
       answer w idlPk = Thrown e →
       fetchIdl programId w = (Thrown e, called w idlPk))
  ∧ (∀ p idlPk info e,
       requested programId w = Some p →
       idlAddress p = Returned idlPk →
       answer w idlPk = Returned (Some info) →
       decodeIdlAccount (drop 8 (data info)) = Thrown e →
       fetchIdl programId w = (Thrown e, called w idlPk)).
Proof.
  split; [apply fetch_returns|]. split; [|split].
  - intros p e w' Hready Hp Htry.
    rewrite (fetch_ready _ _ p) by done. by rewrite Htry.
  - intros p idlPk e Hp Hidl Hans.
    rewrite (fetchIdl_start _ _ p idlPk) by done. by rewrite Hans.
  - intros p idlPk info e Hp Hidl Hans Hdec.
    rewrite (fetchIdl_start _ _ p idlPk) by done. rewrite Hans.
    run. by rewrite Hdec.
Qed.

(** The failures of the [try] block: the first call, the decoding of the
    program data address, the second call. *)
Lemma fetch_try_first_call_fails (p : PublicKey.t) (w : World) (e : Error) :
  answer w p = Thrown e → fetch_try p w = (Thrown e, called w p).
Proof. unfold fetch_try, answer, called. run. by intros ->. Qed.

Lemma fetch_try_decoding_fails
    (p : PublicKey.t) (w : World) (info : AccountInfo) (e : Error) :
  answer w p = Returned (Some info) →
  PublicKey.of_bytes (drop 4 (data info)) = Thrown e →
  fetch_try p w = (Thrown e, called w p).
Proof. unfold fetch_try, answer, called. run. by intros -> ->. Qed.

Lemma fetch_try_second_call_fails
    (p q : PublicKey.t) (w : World) (info : AccountInfo) (e : Error) :
  answer w p = Returned (Some info) →
  PublicKey.of_bytes (drop 4 (data info)) = Returned q →
  answer (called w p) q = Thrown e →
  fetch_try p w = (Thrown e, called (called w p) q).
Proof.
  unfold fetch_try, answer, called. run. intros -> ->. simpl. by intros ->.
Qed.
End Fetch.

Lemma fetch_not_deployed_witness :
  fetch None Example.fresh =
    (Returned (Some {| deployed := false; authority := None;
                       upgradable := true |}),
     called Example.fresh Example.programId).
Proof.
  apply (fetch_not_deployed None Example.fresh Example.programId);
    reflexivity.
Defined.

Lemma fetch_catches_fetchIdl_raises_witness :
  let e := {| message := "failed to get info about account" |} in
  fetch None Example.offline =
    (Returned None,
     logged (called Example.offline Example.programId)
       "Could not get authority: failed to get info about account")
  ∧ (@fetchIdl Reference.externals None Example.offline).1 = Thrown e
  ∧ (∃ e', (@fetchIdl Reference.externals None Example.corrupt).1 = Thrown e').
Proof.
  destruct (@fetch_catches_fetchIdl_raises Reference.externals
              None Example.offline) as (_ & Hcatch & Hraise & _).
  destruct (@fetch_catches_fetchIdl_raises Reference.externals
              None Example.corrupt) as (_ & _ & _ & Hdecode).
  split; [|split].
  - apply (Hcatch Example.programId
             {| message := "failed to get info about account" |}
             (called Example.offline Example.programId)); reflexivity.
  - erewrite (Hraise Example.programId); reflexivity.
  - eexists. erewrite (Hdecode Example.programId); reflexivity.
Defined.

(** The claim C2 makes of [fetchIdl] fails on an endpoint that cannot be
    reached: the error of [getAccountInfo] comes out of [fetchIdl], and the
    console stays empty. *)
Lemma fetchIdl_rpc_failure_propagates :
  ¬ (∀ (E : Externals) (programId : option PublicKey.t) (w : World),
       (∃ r w', fetch programId w = (Returned r, w'))
       ∧ (∃ r w', @fetchIdl E programId w = (Returned r, w')))
  ∧ (@fetchIdl Reference.externals None Example.offline).1
      = Thrown {| message := "failed to get info about account" |}
  ∧ console (@fetchIdl Reference.externals None Example.offline).2 = [].
Proof.
  split; [|split; reflexivity].
  intros Hclaim.
  destruct (Hclaim Reference.externals None Example.offline)
    as (_ & r & w' & Hret).
  vm_compute in Hret. discriminate Hret.
Qed.

Example fetch_upgradable_program :
  (fetch None Example.open).1 =
    Returned (Some {| deployed := true;
                      authority := Some Example.upgradeAuthority;
                      upgradable := true |})
  ∧ rpc_calls (fetch None Example.open).2
    = [Example.programId; Example.programDataPk].
Proof. split; vm_compute; reflexivity. Qed.

Example fetch_short_accounts :
  (fetch None Example.corrupt).1 =
    Returned (Some {| deployed := true; authority := None;
                      upgradable := false |}).
Proof. vm_compute. reflexivity. Qed.
End FetchSpec.

(** ** Bytes, big numbers and base58 *)

Module Codec.

#[local] Arguments Z.eqb : simpl never.

Lemma Z_of_byte_range (b : Byte.byte) : 0 ≤ Z_of_byte b < 256.
Proof.
  unfold Z_of_byte. pose proof (Byte.to_N_bounded b). lia.
Qed.

Lemma byte_of_Z_of_byte (b : Byte.byte) : byte_of_Z (Z_of_byte b) = b.
Proof.
  unfold byte_of_Z. rewrite Z.mod_small by apply Z_of_byte_range.
  unfold Z_of_byte. by rewrite N2Z.id, Byte.of_to_N.
Qed.

Lemma Z_of_byte_of_Z (n : Z) : Z_of_byte (byte_of_Z n) = n `mod` 256.
Proof.
  unfold byte_of_Z, Z_of_byte.
  pose proof (Z.mod_pos_bound n 256 ltac:(lia)) as Hrange.
  destruct (Byte.of_N (Z.to_N (n `mod` 256))) as [b|] eqn:E.
  - apply Byte.to_of_N in E. rewrite E. lia.
  - apply Byte.of_N_None_iff in E. lia.
Qed.

Section Digits.
Variable base : Z.
Hypothesis base_ge_2 : 2 ≤ base.

Lemma of_digits_snoc (ds : list Z) (d : Z) :
  of_digits base (ds ++ [d]) = of_digits base ds * base + d.
Proof. unfold of_digits. by rewrite fold_left_app. Qed.

Lemma of_digits_nonneg (ds : list Z) :
  Forall (λ d, 0 ≤ d < base) ds → 0 ≤ of_digits base ds.
Proof.
  induction ds as [|d ds IH] using rev_ind; [done|].
  rewrite Forall_app, Forall_singleton. intros [Hds Hd].
  rewrite of_digits_snoc. specialize (IH Hds). nia.
Qed.

Lemma div_base_bound (n : Z) (f : nat) :
  0 < n → n < 2 ^ Z.of_nat (S f) → 0 ≤ n / base < 2 ^ Z.of_nat f.
Proof.
  intros Hpos Hlt. rewrite Nat2Z.inj_succ, Z.pow_succ_r in Hlt by lia.
  split; [apply Z.div_pos; lia|].
  apply Z.div_lt_upper_bound; [lia|]. nia.
Qed.

Lemma digits_fuel_enough (f f' : nat) (n : Z) :
  n < 2 ^ Z.of_nat f → n < 2 ^ Z.of_nat f' →
  digits_fuel base f n = digits_fuel base f' n.
Proof.
  revert f' n. induction f as [|f IH]; intros f' n Hf Hf'.
  - simpl in Hf. destruct f' as [|f']; [done|]. simpl.
    by rewrite (proj2 (Z.leb_le n 0)) by lia.
  - destruct f' as [|f'].
    + simpl in Hf'. simpl. by rewrite (proj2 (Z.leb_le n 0)) by lia.
    + simpl. destruct (n <=? 0) eqn:E; [done|].
      apply Z.leb_gt in E.
      f_equal. apply IH; by apply div_base_bound.
Qed.

Lemma log2_fuel (n : Z) : n < 2 ^ Z.of_nat (S (Z.to_nat (Z.log2 n))).
Proof.
  destruct (decide (0 < n)) as [Hpos|Hneg].
  - pose proof (Z.log2_spec n Hpos) as [_ Hlt].
    pose proof (Z.log2_nonneg n).
    rewrite Nat2Z.inj_succ, Z2Nat.id by done. by rewrite <- Z.add_1_r.
  - pose proof (Z.pow_pos_nonneg 2 (Z.of_nat (S (Z.to_nat (Z.log2 n))))
                  ltac:(lia) ltac:(lia)). lia.
Qed.

(** The equation [digits] satisfies. *)
Lemma digits_step (n : Z) :
  digits base n =
    if n <=? 0 then [] else digits base (n / base) ++ [n `mod` base].
Proof.
  unfold digits at 1. simpl. destruct (n <=? 0) eqn:E; [done|].
  apply Z.leb_gt in E. f_equal.
  apply digits_fuel_enough; [|apply log2_fuel].
  apply div_base_bound; [done|apply log2_fuel].
Qed.

Lemma digits_nonpos (n : Z) : n ≤ 0 → digits base n = [].
Proof. intros Hn. rewrite digits_step. by rewrite (proj2 (Z.leb_le n 0)). Qed.

Lemma digits_pos (n : Z) :
  0 < n → digits base n = digits base (n / base) ++ [n `mod` base].
Proof.
  intros Hn. rewrite digits_step. by rewrite (proj2 (Z.leb_gt n 0)).
Qed.

(** Induction on a number through its quotients by the base. *)
Lemma quotient_ind (P : Z → Prop) :
  (∀ n, n ≤ 0 → P n) →
  (∀ n, 0 < n → P (n / base) → P n) →
  ∀ n, P n.
Proof.
  intros Hzero Hstep n.
  destruct (decide (n ≤ 0)) as [|Hpos]; [by apply Hzero|].
  assert (0 ≤ n) as Hnn by lia. clear Hpos. revert n Hnn.
  apply (Z_lt_induction P). intros n IH.
  destruct (decide (n ≤ 0)) as [|Hpos]; [by apply Hzero|].
  apply Hstep; [lia|]. apply IH.
  split; [apply Z.div_pos; lia | apply Z.div_lt; lia].
Qed.

Lemma of_digits_digits (n : Z) : 0 ≤ n → of_digits base (digits base n) = n.
Proof.
  induction n as [n Hn|n Hn IH] using quotient_ind; intros Hnn.
  - rewrite digits_nonpos by done. unfold of_digits. simpl. lia.
  - rewrite digits_pos, of_digits_snoc by done.
    rewrite IH by (apply Z.div_pos; lia).
    pose proof (Z.div_mod n base ltac:(lia)). lia.
Qed.

Lemma digits_range (n : Z) : Forall (λ d, 0 ≤ d < base) (digits base n).
Proof.
  induction n as [n Hn|n Hn IH] using quotient_ind.
  - by rewrite digits_nonpos.
  - rewrite digits_pos by done. apply Forall_app. split; [done|].
    apply Forall_singleton. apply Z.mod_pos_bound. lia.
Qed.

Lemma digits_nil (n : Z) : digits base n = [] → n ≤ 0.
Proof.
  intros Hnil. destruct (decide (n ≤ 0)) as [|Hpos]; [done|].
  rewrite digits_pos in Hnil by lia. by destruct (digits base (n / base)).
Qed.

(** The first digit of a number is not zero. *)
Lemma digits_leading (n : Z) : leading (Z.eqb 0) (digits base n) = 0%nat.
Proof.
  induction n as [n Hn|n Hn IH] using quotient_ind.
  - by rewrite digits_nonpos.
  - rewrite digits_pos by done.
    destruct (digits base (n / base)) as [|d ds] eqn:E.
    + apply digits_nil in E. simpl.
      assert (n / base = 0) as Hq.
      { pose proof (Z.div_pos n base ltac:(lia) ltac:(lia)). lia. }
      pose proof (Z.div_mod n base ltac:(lia)) as Hdm.
      rewrite Hq in Hdm.
      by rewrite (proj2 (Z.eqb_neq 0 (n `mod` base))) by lia.
    + simpl in *. by destruct (0 =? d).
Qed.

Lemma leading_le {A} (p : A → bool) (l : list A) :
  (leading p l ≤ length l)%nat.
Proof. induction l as [|x l IH]; simpl; [lia|]. destruct (p x); lia. Qed.

Lemma leading_app_lt {A} (p : A → bool) (l m : list A) :
  (leading p l < length l)%nat → leading p (l ++ m) = leading p l.
Proof.
  induction l as [|x l IH]; simpl; [lia|].
  destruct (p x); [|done]. intros Hlt. f_equal. apply IH. lia.
Qed.

Lemma leading_app_all {A} (p : A → bool) (l m : list A) :
  leading p l = length l →
  leading p (l ++ m) = (length l + leading p m)%nat.
Proof.
  induction l as [|x l IH]; simpl; [done|].
  destruct (p x); [|done]. intros Hall. f_equal. apply IH. lia.
Qed.

Lemma of_digits_zeros (ds : list Z) :
  leading (Z.eqb 0) ds = length ds → of_digits base ds = 0.
Proof.
  induction ds as [|d ds IH] using rev_ind; [done|].
  intros Hall. rewrite of_digits_snoc.
  pose proof (leading_le (Z.eqb 0) ds) as Hle.
  destruct (decide (leading (Z.eqb 0) ds = length ds)) as [Hds|Hds].
  - rewrite leading_app_all, length_app in Hall by done. simpl in Hall.
    destruct (0 =? d) eqn:E; [|lia]. apply Z.eqb_eq in E.
    rewrite IH by done. lia.
  - rewrite leading_app_lt, length_app in Hall by lia. simpl in Hall. lia.
Qed.

(** The digits of the number a list of digits stands for: the list
    without its leading zeros. *)
Lemma digits_of_digits (ds : list Z) :
  Forall (λ d, 0 ≤ d < base) ds →
  digits base (of_digits base ds) = drop (leading (Z.eqb 0) ds) ds.
Proof.
  induction ds as [|d ds IH] using rev_ind; [done|].
  rewrite Forall_app, Forall_singleton. intros [Hds Hd].
  specialize (IH Hds). rewrite of_digits_snoc.
  pose proof (of_digits_nonneg ds Hds) as Hnn.
  pose proof (leading_le (Z.eqb 0) ds) as Hle.
  destruct (decide (leading (Z.eqb 0) ds = length ds)) as [Hall|Hsome].
  - rewrite leading_app_all by done. rewrite (of_digits_zeros ds Hall).
    simpl. destruct (0 =? d) eqn:E.
    + apply Z.eqb_eq in E. subst d. simpl.
      rewrite drop_ge by (rewrite length_app; simpl; lia). done.
    + apply Z.eqb_neq in E. rewrite Nat.add_0_r, drop_app_length.
      rewrite digits_pos by lia.
      rewrite Z.div_small, Z.mod_small by lia. by rewrite digits_nonpos.
  - rewrite leading_app_lt by lia. rewrite drop_app_le by lia.
    assert (0 < of_digits base ds) as Hpos.
    { destruct (decide (of_digits base ds = 0)) as [Hz|]; [|lia].
      rewrite Hz, digits_nonpos in IH by done.
      symmetry in IH. apply drop_nil_inv in IH. lia. }
    rewrite digits_pos by nia.
    rewrite Z.div_add_l, Z.div_small, Z.add_0_r by lia.
    rewrite Z.add_comm, Z.mod_add, Z.mod_small by lia.
    by rewrite IH.
Qed.

Lemma of_digits_leading_zeros (z : nat) (ds : list Z) :
  of_digits base (replicate z 0 ++ ds) = of_digits base ds.
Proof. induction z as [|z IH]; [done|]. simpl. exact IH. Qed.
End Digits.

End Codec.

Module Base58Spec.
Import Codec.

#[local] Arguments Z.eqb : simpl never.

Lemma char_digit_digit_char (d : Z) :
  0 ≤ d < 58 → bs58.char_digit (bs58.digit_char d) = Some d.
Proof.
  intros Hd.
  assert (∃ k : nat, d = Z.of_nat k ∧ (k < 58)%nat) as (k & -> & Hk).
  { exists (Z.to_nat d). lia. }
  do 58 (destruct k as [|k]; [vm_compute; reflexivity|]). lia.
Qed.

Lemma decode_digits (ds : list Z) :
  Forall (λ d, 0 ≤ d < 58) ds →
  mapM bs58.char_digit (bs58.digit_char <$> ds) = Some ds.
Proof.
  induction 1 as [|d ds Hd Hds IH]; [done|].
  cbn [fmap list_fmap mapM]. rewrite char_digit_digit_char by done.
  simpl. fold (fmap (M:=list) bs58.digit_char ds). by rewrite IH.
Qed.

Lemma leading_replicate {A} (p : A → bool) (x : A) (z : nat) (l : list A) :
  p x = true → leading p (replicate z x ++ l) = (z + leading p l)%nat.
Proof. intros Hp. induction z as [|z IH]; simpl; [done|]. by rewrite Hp, IH. Qed.

Lemma leading_bytes (bs : Uint8Array) :
  leading (Z.eqb 0) (Z_of_byte <$> bs) = leading bs58.is_zero_byte bs.
Proof.
  induction bs as [|b bs IH]; [done|].
  rewrite fmap_cons. cbn [leading]. rewrite IH.
  unfold bs58.is_zero_byte. by rewrite Z.eqb_sym.
Qed.

Lemma is_zero_byte_x00 (b : Byte.byte) :
  bs58.is_zero_byte b = true → b = Byte.x00.
Proof.
  unfold bs58.is_zero_byte. intros Hz. apply Z.eqb_eq in Hz.
  rewrite <- (byte_of_Z_of_byte b), Hz. reflexivity.
Qed.

Lemma restore_leading_zeros (bs : Uint8Array) :
  replicate (leading bs58.is_zero_byte bs) Byte.x00
    ++ drop (leading bs58.is_zero_byte bs) bs = bs.
Proof.
  induction bs as [|b bs IH]; [done|]. simpl.
  destruct (bs58.is_zero_byte b) eqn:E; [|done].
  apply is_zero_byte_x00 in E. subst b. simpl. by rewrite IH.
Qed.

Lemma bytes_of_Z_of_bytes (bs : Uint8Array) :
  byte_of_Z <$> (Z_of_byte <$> bs) = bs.
Proof.
  induction bs as [|b bs IH]; [done|].
  by rewrite !fmap_cons, byte_of_Z_of_byte, IH.
Qed.

Lemma bytes_range (bs : Uint8Array) :
  Forall (λ d, 0 ≤ d < 256) (Z_of_byte <$> bs).
Proof.
  apply Forall_fmap, Forall_forall. intros b _. apply Z_of_byte_range.
Qed.

Lemma BN_nonneg (bs : Uint8Array) : 0 ≤ BN bs.
Proof. apply (of_digits_nonneg 256); [lia | apply bytes_range]. Qed.

(** Decoding gives back the bytes that were encoded. *)
Lemma decode_encode (bs : Uint8Array) :
  bs58.decode (bs58.encode bs) = Some bs.
Proof.
  unfold bs58.decode, bs58.encode.
  rewrite list_ascii_of_string_of_list_ascii.
  set (z := leading bs58.is_zero_byte bs).
  set (ds := digits 58 (BN bs)).
  assert (replicate z bs58.LEADER ++ (bs58.digit_char <$> ds)
          = bs58.digit_char <$> (replicate z 0 ++ ds)) as ->.
  { by rewrite fmap_app, fmap_replicate. }
  rewrite decode_digits.
  2: { apply Forall_app. split; [|apply digits_range; lia].
       apply Forall_replicate. lia. }
  simpl. f_equal.
  rewrite leading_replicate by done.
  unfold ds at 1. rewrite (digits_leading 58) by lia. rewrite Nat.add_0_r.
  rewrite (of_digits_leading_zeros 58). unfold ds.
  rewrite (of_digits_digits 58) by (lia || apply BN_nonneg).
  unfold BN. rewrite (digits_of_digits 256) by (lia || apply bytes_range).
  rewrite leading_bytes. fold z.
  rewrite <- fmap_drop, bytes_of_Z_of_bytes. apply restore_leading_zeros.
Qed.

Lemma encode_nonempty (bs : Uint8Array) :
  bs ≠ [] → String.eqb (bs58.encode bs) "" = false.
Proof.
  intros Hne. apply String.eqb_neq. intros Hempty.
  pose proof (decode_encode bs) as Hrt. rewrite Hempty in Hrt.
  vm_compute in Hrt. congruence.
Qed.

Lemma length_be_bytes (len : nat) (n : Z) : length (be_bytes len n) = len.
Proof.
  revert n. induction len as [|len IH]; intros n; [done|].
  simpl. rewrite length_app, IH. simpl. lia.
Qed.

Lemma BN_be_bytes (len : nat) (n : Z) :
  0 ≤ n < 256 ^ Z.of_nat len → BN (be_bytes len n) = n.
Proof.
  revert n. induction len as [|len IH]; intros n Hn.
  - simpl in Hn. unfold BN, of_digits. simpl. lia.
  - rewrite Nat2Z.inj_succ, Z.pow_succ_r in Hn by lia.
    cbn [be_bytes]. unfold BN in *. rewrite fmap_app.
    change (Z_of_byte <$> [byte_of_Z (n `mod` 256)])
      with [Z_of_byte (byte_of_Z (n `mod` 256))].
    rewrite (of_digits_snoc 256).
    rewrite IH.
    2: { split; [apply Z.div_pos; lia|].
         apply Z.div_lt_upper_bound; lia. }
    rewrite Z_of_byte_of_Z, Z.mod_mod by lia.
    pose proof (Z.div_mod n 256 ltac:(lia)). lia.
Qed.

Lemma byteLength_valid (n : Z) :
  0 ≤ n < 2 ^ 256 → (byteLength n >? 32) = false.
Proof.
  intros Hn. unfold byteLength. destruct (n <=? 0) eqn:E; [done|].
  apply Z.leb_gt in E.
  assert (Z.log2 n < 256) by (apply Z.log2_lt_pow2; lia).
  pose proof (Z.log2_nonneg n).
  assert (Z.log2 n / 8 < 32) by (apply Z.div_lt_upper_bound; lia).
  lia.
Qed.

(** A valid key is the key its base58 string stands for, and that string
    is not empty. *)
Lemma PublicKey_of_toBase58 (p : PublicKey.t) :
  PublicKey.valid p →
  PublicKey.of_string (PublicKey.toBase58 p) = Returned p
  ∧ truthy (VStr (PublicKey.toBase58 p)) = true.
Proof.
  intros Hvalid. unfold PublicKey.valid in Hvalid. split.
  - unfold PublicKey.of_string, PublicKey.toBase58, PublicKey.toBuffer.
    rewrite decode_encode, length_be_bytes.
    rewrite bool_decide_eq_true_2 by done.
    rewrite BN_be_bytes by (by change (256 ^ Z.of_nat PublicKey.PUBLIC_KEY_LENGTH) with (2 ^ 256)).
    unfold PublicKey.of_bn. change (Z.of_nat PublicKey.PUBLIC_KEY_LENGTH) with 32.
    rewrite byteLength_valid by done. by destruct p.
  - cbn [truthy]. unfold PublicKey.toBase58, PublicKey.toBuffer.
    rewrite encode_nonempty; [done|].
    intros Hnil. apply (f_equal length) in Hnil.
    by rewrite length_be_bytes in Hnil.
Qed.

(** What the constructor returns is valid. *)
Lemma PublicKey_of_bytes_valid (buffer : Uint8Array) (p : PublicKey.t) :
  PublicKey.of_bytes buffer = Returned p → PublicKey.valid p.
Proof.
  unfold PublicKey.of_bytes, PublicKey.of_bn, PublicKey.valid, byteLength.
  pose proof (BN_nonneg buffer) as Hnn.
  change (Z.of_nat PublicKey.PUBLIC_KEY_LENGTH) with 32.
  destruct (BN buffer <=? 0) eqn:E.
  - apply Z.leb_le in E. simpl. intros [= <-]. simpl. lia.
  - apply Z.leb_gt in E.
    destruct (Z.log2 (BN buffer) / 8 + 1 >? 32) eqn:E2; [done|].
    intros [= <-]. simpl. split; [done|].
    apply Z.log2_lt_cancel.
    rewrite Z.log2_pow2 by lia.
    assert (Z.log2 (BN buffer) / 8 < 32) as Hq by lia.
    pose proof (Z.div_mod (Z.log2 (BN buffer)) 8 ltac:(lia)).
    pose proof (Z.mod_pos_bound (Z.log2 (BN buffer)) 8 ltac:(lia)).
    lia.
Qed.

Section Serialized.
Context `{Externals}.

Lemma Uint8Array_from_Array_from (bytes : Uint8Array) :
  Uint8Array_from (Array_from bytes) = bytes
  ∧ truthy (Array_from bytes) = true.
Proof.
  split; [|done]. unfold Uint8Array_from, Array_from.
  induction bytes as [|b bytes IH]; [done|].
  rewrite !fmap_cons, IH. simpl. by rewrite byte_of_Z_of_byte.
Qed.

Lemma fromSecretKey_secretKey (k : Keypair.t) :
  Keypair.valid k →
  Keypair.fromSecretKey (Keypair.secretKey k) = Returned k.
Proof.
  intros (Hlen & Hpub & Hcurve). unfold Keypair.fromSecretKey.
  rewrite bool_decide_eq_true_2 by done.
  rewrite bool_decide_eq_true_2 by congruence.
  rewrite <- Hpub. by destruct k.
Qed.
End Serialized.

End Base58Spec.

(** ** What [write] persists and what [read] gives back *)

Module StorageSpec.
Import Base58Spec.

#[local] Arguments PublicKey.toBase58 : simpl never.
#[local] Arguments PublicKey.of_string : simpl never.
#[local] Arguments Keypair.fromSecretKey : simpl never.
#[local] Arguments Array_from : simpl never.
#[local] Arguments Uint8Array_from : simpl never.
#[local] Arguments String.eqb : simpl nomatch.

Section Persist.
Context `{Externals}.

Lemma open_workspace (w : World) (name : string) :
  currentWorkspaceName w = Some name → name ≠ ""%string →
  no_workspace w = false
  ∧ ∀ path, workspace_key w path = (name, path).
Proof.
  intros Hws Hname. unfold no_workspace, workspace_key. rewrite Hws.
  split; [by apply String.eqb_neq | done].
Qed.

Lemma write_open (state : ProgramInfo) (w : World) (name : string) :
  currentWorkspaceName w = Some name → name ≠ ""%string →
  ∃ w1, storage.write state w = (Returned tt, w1)
        ∧ currentWorkspaceName w1 = Some name
        ∧ files w1 = <[(name, storage.PATH) :=
                         JSON_stringify (storage.serializedState state)]>
                       (files w)
        ∧ fs_ops w1 = fs_ops w
                      ++ [FsWrite storage.PATH
                            (JSON_stringify (storage.serializedState state))].
Proof.
  intros Hws Hname.
  destruct (open_workspace w name Hws Hname) as [Hopen Hkey].
  unfold storage.write. run. rewrite Hopen, Hkey. by eexists.
Qed.

(** C4: the file [write] leaves at [.workspace/program-info.json] is the
    JSON text of an object with exactly the fields [uuid], [kp],
    [customPk] and [idl]: [kp] is the array of the secret key's bytes, or
    [null]; [customPk] is the base58 string of the key, or [null]; [uuid]
    and [idl] are those of the state. *)
Theorem write_persists_four_fields
    (state : ProgramInfo) (w : World) (name : string) :
  currentWorkspaceName w = Some name → name ≠ ""%string →
  ∃ fields,
    files (storage.write state w).2
      !! (name, ".workspace/program-info.json"%string)
      = Some (JSON_stringify (VObj fields))
    ∧ fields.*1 ≡ₚ ["uuid"; "kp"; "customPk"; "idl"]%string
    ∧ assoc "uuid" fields = uuid state
    ∧ assoc "idl" fields = idl state
    ∧ match kp state with
      | Some k =>
          ∃ numbers, assoc "kp" fields = VArr (VNum <$> numbers)
                     ∧ numbers = Z_of_byte <$> Keypair.secretKey k
                     ∧ Forall (λ n, 0 ≤ n < 256) numbers
      | None => assoc "kp" fields = VNull
      end
    ∧ match customPk state with
      | Some p =>
          assoc "customPk" fields
            = VStr (bs58.encode (PublicKey.toBuffer p))
      | None => assoc "customPk" fields = VNull
      end.
Proof.
  intros Hws Hname.
  destruct (write_open state w name Hws Hname) as (w1 & -> & _ & Hfiles & _).
  eexists. split.
  { cbn [snd]. rewrite Hfiles. apply lookup_insert_eq. }
  split.
  { cbn [fmap list_fmap fst]. apply (bool_decide_unpack _).
    vm_compute. reflexivity. }
  split; [done|]. split; [done|]. split.
  - destruct (kp state) as [k|]; [|done].
    exists (Z_of_byte <$> Keypair.secretKey k).
    split; [|split; [done | apply bytes_range]].
    change (assoc "kp" _) with (Array_from (Keypair.secretKey k)).
    unfold Array_from. by rewrite <- list_fmap_compose.
  - by destruct (customPk state).
Qed.

(** The state [read] builds from a parsed file. *)
Lemma read_open (w : World) (name content : string) (v : value) :
  currentWorkspaceName w = Some name → name ≠ ""%string →
  files w !! (name, storage.PATH) = Some content →
  JSON_parse content = Returned v →
  ∃ w', fs_ops w' = fs_ops w ++ [FsRead storage.PATH]
        ∧ files w' = files w
        ∧ storage.read w =
            (kp_field ← lift (get v "kp");
             kp' ← (if truthy kp_field
                    then k ← lift (Keypair.fromSecretKey
                                     (Uint8Array_from kp_field));
                         mret (Some k)
                    else mret None);
             customPk_field ← lift (get v "customPk");
             customPk' ← (if truthy customPk_field
                          then p ← lift (PublicKey_new customPk_field);
                               mret (Some p)
                          else mret None);
             mret {| uuid := spread v "uuid";
                     idl := spread v "idl";
                     kp := kp';
                     customPk := customPk';
                     importedProgram := None |}) w'.
Proof.
  intros Hws Hname Hfile Hparse.
  destruct (open_workspace w name Hws Hname) as [Hopen Hkey].
  eexists. split; [|split]; [| |unfold storage.read; run;
    rewrite Hopen, Hkey, Hfile, Hparse; reflexivity]; done.
Qed.

(** Writing a state and reading it back, for a state whose keys are
    valid and whose serialized form survives JSON. *)
Lemma write_then_read (state : ProgramInfo) (w : World) (name : string) :
  currentWorkspaceName w = Some name → name ≠ ""%string →
  (∀ k, kp state = Some k → Keypair.valid k) →
  (∀ p, customPk state = Some p → PublicKey.valid p) →
  JSON_parse (JSON_stringify (storage.serializedState state))
    = Returned (storage.serializedState state) →
  ∃ w1 w2,
    storage.write state w = (Returned tt, w1)
    ∧ storage.read w1 =
        (Returned {| uuid := uuid state; kp := kp state;
                     customPk := customPk state; idl := idl state;
                     importedProgram := None |}, w2).
Proof.
  intros Hws Hname Hkp Hpk Hjson.
  destruct (write_open state w name Hws Hname)
    as (w1 & Hwrite & Hws1 & Hfiles & _).
  exists w1.
  destruct (read_open w1 name _ _ Hws1 Hname
              ltac:(rewrite Hfiles; apply lookup_insert_eq) Hjson)
    as (w2 & _ & _ & Hread).
  exists w2. split; [done|]. rewrite Hread. clear Hread.
  unfold storage.serializedState.
  run.
  destruct (kp state) as [k|] eqn:Ek.
  - destruct (Uint8Array_from_Array_from (Keypair.secretKey k)) as [-> ->].
    rewrite (fromSecretKey_secretKey k) by auto. simpl.
    destruct (customPk state) as [p|] eqn:Ep; [|done].
    destruct (PublicKey_of_toBase58 p) as [Hof Htruthy]; [auto|].
    rewrite Htruthy.
    unfold PublicKey_new. by rewrite Hof.
  - destruct (customPk state) as [p|] eqn:Ep; [|done].
    destruct (PublicKey_of_toBase58 p) as [Hof Htruthy]; [auto|].
    rewrite Htruthy.
    unfold PublicKey_new. by rewrite Hof.
Qed.

(** C1: in an open workspace, a state whose keypair and custom public
    key are valid (or [null]), and whose serialized form is a value JSON
    gives back as it was, is written and then read back with the same
    [uuid], the same secret key, the same base58 custom key and the same
    [idl]. *)
Theorem write_read_roundtrip
    (state : ProgramInfo) (w : World) (name : string) :
  currentWorkspaceName w = Some name → name ≠ ""%string →
  (∀ k, kp state = Some k → Keypair.valid k) →
  (∀ p, customPk state = Some p → PublicKey.valid p) →
  JSON_parse (JSON_stringify (storage.serializedState state))
    = Returned (storage.serializedState state) →
  ∃ w1 state' w2,
    storage.write state w = (Returned tt, w1)
    ∧ storage.read w1 = (Returned state', w2)
    ∧ uuid state' = uuid state
    ∧ Keypair.secretKey <$> kp state' = Keypair.secretKey <$> kp state
    ∧ PublicKey.toBase58 <$> customPk state'
      = PublicKey.toBase58 <$> customPk state
    ∧ idl state' = idl state.
Proof.
  intros Hws Hname Hkp Hpk Hjson.
  destruct (write_then_read state w name Hws Hname Hkp Hpk Hjson)
    as (w1 & w2 & Hwrite & Hread).
  by eexists w1, _, w2.
Qed.

(** Whatever the file holds, a state that [read] returns has no imported
    program. *)
Lemma read_importedProgram_null (w w' : World) (state' : ProgramInfo) :
  storage.read w = (Returned state', w') → importedProgram state' = None.
Proof.
  unfold storage.read. run.
  destruct (no_workspace w); [by intros [= <- _]|].
  match goal with
  | |- context [match ?o with Returned _ => _ | Thrown _ => _ end] =>
      destruct o as [v|e]; [|by intros [= <- _]]
  end.
  destruct (get v "kp") as [kp_field|e]; [|done].
  destruct (truthy kp_field);
    [destruct (Keypair.fromSecretKey _) as [k|e]; [|done]|];
    (destruct (get v "customPk") as [pk_field|e]; [|done]);
    (destruct (truthy pk_field);
       [destruct (PublicKey_new _) as [p|e]; [|done]|]);
    by intros [= <- _].
Qed.

(** C5, as the code has it: [uuid], keypair, custom public key and IDL
    are mirrored to the file, the imported binary is not.  The object
    written has no [importedProgram] property, and under the conditions
    of the round trip the state read back has the four fields of the
    state written and [importedProgram] [null]. *)
Theorem write_read_drops_importedProgram
    (state : ProgramInfo) (w : World) (name : string) :
  currentWorkspaceName w = Some name → name ≠ ""%string →
  (∀ k, kp state = Some k → Keypair.valid k) →
  (∀ p, customPk state = Some p → PublicKey.valid p) →
  JSON_parse (JSON_stringify (storage.serializedState state))
    = Returned (storage.serializedState state) →
  spread (storage.serializedState state) "importedProgram" = VUndefined
  ∧ ∃ w1 state' w2,
      storage.write state w = (Returned tt, w1)
      ∧ storage.read w1 = (Returned state', w2)
      ∧ uuid state' = uuid state
      ∧ Keypair.secretKey <$> kp state' = Keypair.secretKey <$> kp state
      ∧ PublicKey.toBase58 <$> customPk state'
        = PublicKey.toBase58 <$> customPk state
      ∧ idl state' = idl state
      ∧ importedProgram state' = None.
Proof.
  intros Hws Hname Hkp Hpk Hjson. split; [done|].
  destruct (write_then_read state w name Hws Hname Hkp Hpk Hjson)
    as (w1 & w2 & Hwrite & Hread).
  by eexists w1, _, w2.
Qed.
End Persist.

Lemma example_keypair_valid :
  @Keypair.valid Reference.externals Example.keypair.
Proof. repeat split; vm_compute; reflexivity. Qed.

Lemma example_programId_valid : PublicKey.valid Example.programId.
Proof. split; vm_compute; [discriminate | reflexivity]. Qed.

Lemma write_persists_four_fields_witness :
  ∃ fields,
    files (@storage.write Reference.externals Example.state Example.open).2
      !! ("hello", ".workspace/program-info.json")%string
      = Some (Reference.stringify (VObj fields))
    ∧ fields.*1 ≡ₚ ["uuid"; "kp"; "customPk"; "idl"]%string
    ∧ assoc "uuid" fields = uuid Example.state
    ∧ assoc "idl" fields = idl Example.state
    ∧ (∃ numbers, assoc "kp" fields = VArr (VNum <$> numbers)
                  ∧ numbers = Z_of_byte <$> Keypair.secretKey Example.keypair
                  ∧ Forall (λ n, 0 ≤ n < 256) numbers)
    ∧ assoc "customPk" fields
      = VStr (bs58.encode (PublicKey.toBuffer Example.programId)).
Proof.
  apply (@write_persists_four_fields Reference.externals
           Example.state Example.open "hello"%string);
    [reflexivity | discriminate].
Defined.

Lemma write_read_roundtrip_witness :
  ∃ w1 state' w2,
    @storage.write Reference.externals Example.state Example.open
      = (Returned tt, w1)
    ∧ @storage.read Reference.externals w1 = (Returned state', w2)
    ∧ uuid state' = uuid Example.state
    ∧ Keypair.secretKey <$> kp state'
      = Keypair.secretKey <$> kp Example.state
    ∧ PublicKey.toBase58 <$> customPk state'
      = PublicKey.toBase58 <$> customPk Example.state
    ∧ idl state' = idl Example.state.
Proof.
  apply (@write_read_roundtrip Reference.externals
           Example.state Example.open "hello"%string).
  - reflexivity.
  - discriminate.
  - intros k [= <-]. apply example_keypair_valid.
  - intros p [= <-]. apply example_programId_valid.
  - vm_compute. reflexivity.
Defined.

Lemma write_read_drops_importedProgram_witness :
  spread (@storage.serializedState Example.state) "importedProgram"
    = VUndefined
  ∧ ∃ w1 state' w2,
      @storage.write Reference.externals Example.state Example.open
        = (Returned tt, w1)
      ∧ @storage.read Reference.externals w1 = (Returned state', w2)
      ∧ uuid state' = uuid Example.state
      ∧ Keypair.secretKey <$> kp state'
        = Keypair.secretKey <$> kp Example.state
      ∧ PublicKey.toBase58 <$> customPk state'
        = PublicKey.toBase58 <$> customPk Example.state
      ∧ idl state' = idl Example.state
      ∧ importedProgram state' = None.
Proof.
  apply (@write_read_drops_importedProgram Reference.externals
           Example.state Example.open "hello"%string).
  - reflexivity.
  - discriminate.
  - intros k [= <-]. apply example_keypair_valid.
  - intros p [= <-]. apply example_programId_valid.
  - vm_compute. reflexivity.
Defined.

(** The claim C5 makes of the imported binary fails on a state that has
    one: written and read back, the state has none. *)
Lemma importedProgram_not_persisted :
  ¬ (∀ (E : Externals) (state : ProgramInfo) (w : World) (state' : ProgramInfo),
       (@storage.read E (@storage.write E state w).2).1 = Returned state' →
       importedProgram state' = importedProgram state).
Proof.
  intros Hclaim.
  assert (∃ state',
            (@storage.read Reference.externals
               (@storage.write Reference.externals
                  Example.state Example.open).2).1 = Returned state'
            ∧ importedProgram state' = None) as (state' & Hread & Hnone).
  { eexists. split; vm_compute; reflexivity. }
  apply Hclaim in Hread. rewrite Hnone in Hread. discriminate Hread.
Qed.
End StorageSpec.

(** ** [sortByLevel] on levels that are not listed, and on ties *)

Module TutorialsEdge.
Import Tutorials TutorialsSpec.

Lemma indexOf_not_elem (l : list string) (x : string) :
  x ∉ l → indexOf l x = -1.
Proof.
  intros Hnot. unfold indexOf.
  destruct (indexOf_from_shift x l 0) as [H|(n & _ & Hl & _)]; [done|].
  exfalso. apply Hnot, list_elem_of_lookup. eauto.
Qed.

Lemma indexOf_elem_nonneg (l : list string) (x : string) :
  x ∈ l → 0 ≤ indexOf l x < Z.of_nat (length l).
Proof.
  intros Hin. destruct (indexOf_first l x Hin) as (n & -> & Hl & _).
  apply lookup_lt_Some in Hl. lia.
Qed.

(** X1: a tutorial whose level is not listed in [TUTORIAL_LEVELS] has rank
    [-1]: it sorts before every tutorial with a listed level, and two
    tutorials with unlisted levels compare equal whatever their levels. *)
Theorem sortByLevel_unlisted_level_first
    (TUTORIAL_LEVELS : list string) {T : Type} (level : T → string) (a b : T) :
  level a ∉ TUTORIAL_LEVELS →
  level b ∈ TUTORIAL_LEVELS →
  sortByLevel TUTORIAL_LEVELS level a b < 0
  ∧ 0 < sortByLevel TUTORIAL_LEVELS level b a
  ∧ ∀ c, level c ∉ TUTORIAL_LEVELS → sortByLevel TUTORIAL_LEVELS level a c = 0.
Proof.
  intros Ha Hb. unfold sortByLevel.
  rewrite (indexOf_not_elem _ _ Ha).
  pose proof (indexOf_elem_nonneg _ _ Hb) as Hrange.
  split; [lia|]. split; [lia|].
  intros c Hc. rewrite (indexOf_not_elem _ _ Hc). lia.
Qed.

Lemma sortByLevel_unlisted_level_first_witness :
  sortByLevel Example.LEVELS id "Guru"%string "Expert"%string < 0
  ∧ 0 < sortByLevel Example.LEVELS id "Expert"%string "Guru"%string
  ∧ ∀ c : string, c ∉ Example.LEVELS →
                   sortByLevel Example.LEVELS id "Guru"%string c = 0.
Proof.
  apply (sortByLevel_unlisted_level_first Example.LEVELS id
           "Guru"%string "Expert"%string).
  - apply (bool_decide_unpack _). vm_compute. reflexivity.
  - apply (bool_decide_unpack _). vm_compute. reflexivity.
Defined.

(** X2: against a tutorial whose level is listed, [sortByLevel] is [0]
    exactly when the two levels are the same. *)
Theorem sortByLevel_tie_same_level
    (TUTORIAL_LEVELS : list string) {T : Type} (level : T → string) (a b : T) :
  level a ∈ TUTORIAL_LEVELS →
  sortByLevel TUTORIAL_LEVELS level a b = 0 ↔ level a = level b.
Proof.
  intros Ha. unfold sortByLevel. split; [|intros ->; lia].
  intros Htie.
  destruct (indexOf_first _ _ Ha) as (n & Hn & Hl & _).
  destruct (decide (level b ∈ TUTORIAL_LEVELS)) as [Hb|Hb].
  - destruct (indexOf_first _ _ Hb) as (m & Hm & Hlm & _).
    assert (m = n) as -> by lia. congruence.
  - rewrite (indexOf_not_elem _ _ Hb) in Htie. lia.
Qed.

Lemma sortByLevel_tie_same_level_witness :
  sortByLevel Example.LEVELS id "Advanced"%string "Advanced"%string = 0
  ↔ id "Advanced"%string = id "Advanced"%string.
Proof.
  apply (sortByLevel_tie_same_level Example.LEVELS id
           "Advanced"%string "Advanced"%string).
  apply (bool_decide_unpack _). vm_compute. reflexivity.
Defined.

(** X3: without repeated levels, [sortByLevel] is the difference of the
    positions of the two levels in [TUTORIAL_LEVELS]. *)
Theorem sortByLevel_position_difference
    (TUTORIAL_LEVELS : list string) {T : Type} (level : T → string)
    (a b : T) (i j : nat) :
  NoDup TUTORIAL_LEVELS →
  TUTORIAL_LEVELS !! i = Some (level a) →
  TUTORIAL_LEVELS !! j = Some (level b) →
  sortByLevel TUTORIAL_LEVELS level a b = Z.of_nat i - Z.of_nat j.
Proof.
  intros Hnd Hi Hj. unfold sortByLevel.
  by rewrite (indexOf_lookup _ _ i Hnd Hi), (indexOf_lookup _ _ j Hnd Hj).
Qed.

Lemma sortByLevel_position_difference_witness :
  sortByLevel Example.LEVELS id "Expert"%string "Intermediate"%string
  = Z.of_nat 3 - Z.of_nat 1.
Proof.
  apply (sortByLevel_position_difference Example.LEVELS id
           "Expert"%string "Intermediate"%string 3 1).
  - apply (bool_decide_unpack _). vm_compute. reflexivity.
  - reflexivity.
  - reflexivity.
Defined.

End TutorialsEdge.

(** ** [storage]: what is left alone, damaged files, repeated calls *)

Module StorageEdge.
Import StorageSpec.

Section Edge.
Context `{Externals}.

(** The outcome of [read] is decided by the workspace name and the files. *)
Lemma read_depends_on_files (w1 w2 : World) :
  currentWorkspaceName w1 = currentWorkspaceName w2 →
  files w1 = files w2 →
  (storage.read w1).1 = (storage.read w2).1.
Proof.
  intros Hws Hfiles.
  unfold storage.read, no_workspace. run. rewrite Hws.
  destruct (currentWorkspaceName w2) as [name|] eqn:Ename; [|done].
  destruct (String.eqb name ""); [done|]. simpl.
  unfold workspace_key. rewrite Hws, Hfiles, Ename.
  repeat case_match; simplify_eq; done.
Qed.

Lemma read_keeps_files (w : World) :
  currentWorkspaceName (storage.read w).2 = currentWorkspaceName w
  ∧ files (storage.read w).2 = files w.
Proof.
  unfold storage.read. run. repeat case_match; simplify_eq; done.
Qed.

(** X4: [read] only reads.  Whatever it returns or raises, the workspace,
    the files, the console, the program-info state and the connection are as
    before, and the filesystem was accessed not at all or by one read of
    [.workspace/program-info.json]. *)
Theorem read_only (w : World) :
  let w' := (storage.read w).2 in
  currentWorkspaceName w' = currentWorkspaceName w
  ∧ files w' = files w
  ∧ console w' = console w
  ∧ program_info w' = program_info w
  ∧ connection w' = connection w
  ∧ rpc_calls w' = rpc_calls w
  ∧ (fs_ops w' = fs_ops w
     ∨ fs_ops w' = fs_ops w ++ [FsRead ".workspace/program-info.json"]).
Proof.
  unfold storage.read. run.
  repeat case_match; simplify_eq; simpl; repeat split; auto.
Qed.

(** X5: a file that parses to [null] is past the handler of [read]: the
    property access on it raises, and [read] raises instead of returning the
    default state. *)
Theorem read_null_raises (w : World) (name content : string) :
  currentWorkspaceName w = Some name → name ≠ ""%string →
  files w !! (name, storage.PATH) = Some content →
  JSON_parse content = Returned VNull →
  ∃ e w', storage.read w = (Thrown e, w').
Proof.
  intros Hws Hname Hfile Hparse.
  destruct (read_open w name content VNull Hws Hname Hfile Hparse)
    as (w' & _ & _ & ->).
  run. by eexists _, _.
Qed.

(** X6: a file whose [kp] is an array of other than 64 numbers makes [read]
    raise the error of [Keypair.fromSecretKey]; no default state is
    returned. *)
Theorem read_short_secret_key_raises
    (w : World) (name content : string)
    (fields : list (string * value)) (numbers : list value) :
  currentWorkspaceName w = Some name → name ≠ ""%string →
  files w !! (name, storage.PATH) = Some content →
  JSON_parse content = Returned (VObj fields) →
  assoc "kp" fields = VArr numbers →
  length numbers ≠ 64%nat →
  ∃ w', storage.read w = (Thrown {| message := "bad secret key size" |}, w').
Proof.
  intros Hws Hname Hfile Hparse Hkp Hlen.
  destruct (read_open w name content _ Hws Hname Hfile Hparse)
    as (w' & _ & _ & ->).
  exists w'. run. rewrite Hkp. simpl.
  unfold Keypair.fromSecretKey, Uint8Array_from.
  rewrite length_fmap, bool_decide_eq_false_2 by done. reflexivity.
Qed.

(** X7: a file that is an object whose [kp] and [customPk] are missing or
    falsy ([null], the empty string) is read without any key being built:
    both come back [null], [uuid] and [idl] are the file's. *)
Theorem read_without_keys
    (w : World) (name content : string) (fields : list (string * value)) :
  currentWorkspaceName w = Some name → name ≠ ""%string →
  files w !! (name, storage.PATH) = Some content →
  JSON_parse content = Returned (VObj fields) →
  truthy (assoc "kp" fields) = false →
  truthy (assoc "customPk" fields) = false →
  ∃ w', storage.read w =
          (Returned {| uuid := assoc "uuid" fields;
                       kp := None;
                       customPk := None;
                       idl := assoc "idl" fields;
                       importedProgram := None |}, w').
Proof.
  intros Hws Hname Hfile Hparse Hkp Hpk.
  destruct (read_open w name content _ Hws Hname Hfile Hparse)
    as (w' & _ & _ & ->).
  exists w'. run. by rewrite Hkp, Hpk.
Qed.

(** X8: a file whose [customPk] is a string with a character outside the
    base58 alphabet makes [read] raise. *)
Theorem read_non_base58_customPk_raises
    (w : World) (name content : string)
    (fields : list (string * value)) (s : string) (c : ascii) :
  currentWorkspaceName w = Some name → name ≠ ""%string →
  files w !! (name, storage.PATH) = Some content →
  JSON_parse content = Returned (VObj fields) →
  truthy (assoc "kp" fields) = false →
  assoc "customPk" fields = VStr s →
  c ∈ list_ascii_of_string s →
  bs58.char_digit c = None →
  ∃ w', storage.read w = (Thrown {| message := "Non-base58 character" |}, w').
Proof.
  intros Hws Hname Hfile Hparse Hkp Hpk Hc Hdigit.
  destruct (read_open w name content _ Hws Hname Hfile Hparse)
    as (w' & _ & _ & ->).
  exists w'. run. rewrite Hkp, Hpk. simpl.
  assert (s ≠ ""%string) as Hs by (intros ->; by inversion Hc).
  rewrite (proj2 (String.eqb_neq s "") Hs). simpl.
  unfold PublicKey.of_string, bs58.decode.
  destruct (mapM bs58.char_digit (list_ascii_of_string s)) as [ds|] eqn:E;
    [|done].
  exfalso. apply mapM_Some_1 in E.
  apply list_elem_of_lookup in Hc as [i Hi].
  destruct (Forall2_lookup_l _ _ _ i c E Hi) as (d & _ & Hd). congruence.
Qed.

(** X9: reading twice gives what reading once gives. *)
Theorem read_twice (w : World) :
  (storage.read (storage.read w).2).1 = (storage.read w).1.
Proof.
  destruct (read_keeps_files w) as [Hws Hfiles].
  by apply read_depends_on_files.
Qed.


(** X11: the last write wins.  After two writes the files are those after
    the second alone, and [read] gives the same. *)
Theorem last_write_wins
    (first second : ProgramInfo) (w : World) (name : string) :
  currentWorkspaceName w = Some name → name ≠ ""%string →
  files (storage.write second (storage.write first w).2).2
    = files (storage.write second w).2
  ∧ (storage.read (storage.write second (storage.write first w).2).2).1
    = (storage.read (storage.write second w).2).1.
Proof.
  intros Hws Hname.
  destruct (write_open first w name Hws Hname) as (w1 & Hw1 & Hws1 & Hf1 & _).
  destruct (write_open second w name Hws Hname) as (w2 & Hw2 & Hws2 & Hf2 & _).
  rewrite Hw1, Hw2. cbn [snd].
  destruct (write_open second w1 name Hws1 Hname)
    as (w12 & Hw12 & Hws12 & Hf12 & _).
  rewrite Hw12. cbn [snd].
  assert (files w12 = files w2) as Hsame.
  { rewrite Hf12, Hf1, Hf2. apply insert_insert_eq. }
  split; [done|].
  apply read_depends_on_files; [congruence | done].
Qed.
(** X23: what [write] persists is a fixed point of reading and writing: for
    a state as in the round trip, writing it, reading it back and writing
    what was read leaves the files as the first write left them. *)
Theorem write_read_write_same_file
    (state : ProgramInfo) (w : World) (name : string) :
  currentWorkspaceName w = Some name → name ≠ ""%string →
  (∀ k, kp state = Some k → Keypair.valid k) →
  (∀ p, customPk state = Some p → PublicKey.valid p) →
  JSON_parse (JSON_stringify (storage.serializedState state))
    = Returned (storage.serializedState state) →
  ∃ w1 state' w2,
    storage.write state w = (Returned tt, w1)
    ∧ storage.read w1 = (Returned state', w2)
    ∧ (storage.write state' w2).1 = Returned tt
    ∧ files (storage.write state' w2).2 = files w1.
Proof.
  intros Hws Hname Hkp Hpk Hjson.
  destruct (write_then_read state w name Hws Hname Hkp Hpk Hjson)
    as (w1 & w2 & Hwrite & Hread).
  destruct (write_open state w name Hws Hname) as (w1' & Hw1 & Hws1 & Hf1 & _).
  assert (w1' = w1) as -> by congruence.
  destruct (read_keeps_files w1) as [Hws2 Hf2].
  rewrite Hread in Hws2, Hf2. cbn [snd] in Hws2, Hf2.
  eexists w1, _, w2. split; [done|]. split; [exact Hread|].
  destruct (write_open {| uuid := uuid state; kp := kp state;
                          customPk := customPk state; idl := idl state;
                          importedProgram := None |} w2 name)
    as (w3 & -> & _ & Hf3 & _); [congruence | done |].
  split; [done|]. cbn [snd]. rewrite Hf3, Hf2, Hf1.
  apply insert_insert_eq.
Qed.
End Edge.

Lemma read_null_raises_witness :
  ∃ e w', @storage.read Reference.externals Example.emptied = (Thrown e, w').
Proof.
  apply (@read_null_raises Reference.externals Example.emptied
           "hello"%string "null"%string).
  - reflexivity.
  - discriminate.
  - vm_compute. reflexivity.
  - vm_compute. reflexivity.
Defined.

Lemma read_short_secret_key_raises_witness :
  ∃ w', @storage.read Reference.externals Scenario.short_key
        = (Thrown {| message := "bad secret key size" |}, w').
Proof.
  eapply (@read_short_secret_key_raises Reference.externals Scenario.short_key
            "hello"%string _ _ [VNum 1; VNum 2; VNum 3]).
  - reflexivity.
  - discriminate.
  - vm_compute. reflexivity.
  - vm_compute. reflexivity.
  - reflexivity.
  - simpl. lia.
Defined.

Lemma read_without_keys_witness :
  ∃ w', @storage.read Reference.externals Scenario.bare =
          (Returned {| uuid := VUndefined; kp := None; customPk := None;
                       idl := VUndefined; importedProgram := None |}, w').
Proof.
  apply (@read_without_keys Reference.externals Scenario.bare
           "hello"%string "{}"%string []).
  - reflexivity.
  - discriminate.
  - vm_compute. reflexivity.
  - vm_compute. reflexivity.
  - reflexivity.
  - reflexivity.
Defined.

Lemma read_non_base58_customPk_raises_witness :
  ∃ w', @storage.read Reference.externals Scenario.bad_custom_key
        = (Thrown {| message := "Non-base58 character" |}, w').
Proof.
  eapply (@read_non_base58_customPk_raises Reference.externals
            Scenario.bad_custom_key "hello"%string _ _ "0OIl"%string "0"%char).
  - reflexivity.
  - discriminate.
  - vm_compute. reflexivity.
  - vm_compute. reflexivity.
  - reflexivity.
  - reflexivity.
  - apply (bool_decide_unpack _). vm_compute. reflexivity.
  - reflexivity.
Defined.


Lemma last_write_wins_witness :
  files (@storage.write Reference.externals Example.state
           (@storage.write Reference.externals defaultState Example.open).2).2
    = files (@storage.write Reference.externals Example.state Example.open).2
  ∧ (@storage.read Reference.externals
       (@storage.write Reference.externals Example.state
          (@storage.write Reference.externals defaultState Example.open).2).2).1
    = (@storage.read Reference.externals
         (@storage.write Reference.externals Example.state Example.open).2).1.
Proof.
  apply (@last_write_wins Reference.externals
           defaultState Example.state Example.open "hello"%string);
    [reflexivity | discriminate].
Defined.

Lemma write_read_write_same_file_witness :
  ∃ w1 state' w2,
    @storage.write Reference.externals Example.state Example.open
      = (Returned tt, w1)
    ∧ @storage.read Reference.externals w1 = (Returned state', w2)
    ∧ (@storage.write Reference.externals state' w2).1 = Returned tt
    ∧ files (@storage.write Reference.externals state' w2).2 = files w1.
Proof.
  apply (@write_read_write_same_file Reference.externals
           Example.state Example.open "hello"%string).
  - reflexivity.
  - discriminate.
  - intros k [= <-]. repeat split; vm_compute; reflexivity.
  - intros p [= <-]. split; vm_compute; [discriminate | reflexivity].
  - vm_compute. reflexivity.
Defined.

End StorageEdge.

(** ** [getPkStr], [fetch] and [fetchIdl]: results, edges, what is left alone *)

Module ProgramInfoEdge.
Import PgProgramInfo FetchSpec Codec Base58Spec.

#[local] Arguments PublicKey.toBase58 : simpl never.
#[local] Arguments PublicKey.of_string : simpl never.
#[local] Arguments PublicKey.of_bytes : simpl never.
#[local] Arguments BN : simpl never.

Lemma of_digits_bound (base : Z) (ds : list Z) :
  2 ≤ base →
  Forall (λ d, 0 ≤ d < base) ds →
  of_digits base ds < base ^ Z.of_nat (length ds).
Proof.
  intros Hbase. induction ds as [|d ds IH] using rev_ind; [done|].
  rewrite Forall_app, Forall_singleton. intros [Hds Hd].
  rewrite (of_digits_snoc base), length_app, Nat2Z.inj_add by done.
  rewrite Z.pow_add_r by lia. change (Z.of_nat (length [d])) with 1.
  rewrite Z.pow_1_r. specialize (IH Hds).
  pose proof (of_digits_nonneg base Hbase ds Hds). nia.
Qed.

Lemma BN_bound (bytes : Uint8Array) :
  (length bytes ≤ 32)%nat → 0 ≤ BN bytes < 2 ^ 256.
Proof.
  intros Hlen. split; [apply BN_nonneg|].
  pose proof (of_digits_bound 256 (Z_of_byte <$> bytes) ltac:(lia)
                (bytes_range bytes)) as Hlt.
  rewrite length_fmap in Hlt. fold (BN bytes) in Hlt.
  eapply Z.lt_le_trans; [exact Hlt|].
  change (2 ^ 256) with (256 ^ 32).
  apply Z.pow_le_mono_r; lia.
Qed.

(** A buffer of at most 32 bytes is always accepted as a public key. *)
Lemma of_bytes_short (bytes : Uint8Array) :
  (length bytes ≤ 32)%nat →
  PublicKey.of_bytes bytes = Returned {| PublicKey._bn := BN bytes |}.
Proof.
  intros Hlen. unfold PublicKey.of_bytes, PublicKey.of_bn.
  change (Z.of_nat PublicKey.PUBLIC_KEY_LENGTH) with 32.
  by rewrite byteLength_valid by by apply BN_bound.
Qed.

(** A number that needs more than 32 bytes is refused. *)
Lemma of_bytes_long (bytes : Uint8Array) :
  2 ^ 256 ≤ BN bytes →
  PublicKey.of_bytes bytes = error "Invalid public key input".
Proof.
  intros Hbig. unfold PublicKey.of_bytes, PublicKey.of_bn, byteLength.
  change (Z.of_nat PublicKey.PUBLIC_KEY_LENGTH) with 32.
  assert (0 < 2 ^ 256) by lia.
  rewrite (proj2 (Z.leb_gt (BN bytes) 0)) by lia.
  assert (256 ≤ Z.log2 (BN bytes)).
  { rewrite <- (Z.log2_pow2 256) by lia. by apply Z.log2_le_mono. }
  assert (32 ≤ Z.log2 (BN bytes) / 8).
  { apply Z.div_le_lower_bound; lia. }
  by rewrite (proj2 (Z.gtb_lt _ _)) by lia.
Qed.

Section Edge.
Context `{Externals}.

Lemma keypair_publicKey_valid (k : Keypair.t) :
  Keypair.valid k → PublicKey.valid (Keypair.publicKey k).
Proof.
  intros (Hlen & Hpub & _). unfold PublicKey.valid, Keypair.publicKey. simpl.
  apply BN_bound. rewrite Hpub, length_drop. lia.
Qed.

(** X12: for a state with valid keys, [getPkStr] is [null] exactly when
    there is no public key, and otherwise a non-empty base58 string from
    which [new PublicKey] builds the effective public key again; the world
    is left as it was. *)
Theorem getPkStr_parses_back (w : World) :
  (∀ p, customPk (program_info w) = Some p → PublicKey.valid p) →
  (∀ k, kp (program_info w) = Some k → Keypair.valid k) →
  ∃ r, getPkStr w = (Returned r, w)
       ∧ (r = None ↔ derive.pk (program_info w) = None)
       ∧ ∀ s, r = Some s →
              s ≠ ""%string
              ∧ ∃ p, derive.pk (program_info w) = Some p
                     ∧ PublicKey.of_string s = Returned p.
Proof.
  intros Hpk Hkp. unfold getPkStr, pk, derive.pk. run.
  eexists. split; [reflexivity|].
  destruct (customPk (program_info w)) as [p|] eqn:Ep;
    [|destruct (kp (program_info w)) as [k|] eqn:Ek].
  - split; [done|]. intros s [= <-].
    destruct (PublicKey_of_toBase58 p) as [Hof Hne]; [auto|].
    split; [|by exists p].
    cbn [truthy] in Hne. apply negb_true_iff, String.eqb_neq in Hne. done.
  - split; [done|]. intros s [= <-].
    destruct (PublicKey_of_toBase58 (Keypair.publicKey k)) as [Hof Hne];
      [by apply keypair_publicKey_valid; auto|].
    split; [|by eexists].
    cbn [truthy] in Hne. apply negb_true_iff, String.eqb_neq in Hne. done.
  - split; [done|]. by intros s.
Qed.

(** X13: without a ready connection, or without a program id (none given
    and none derived from the state), [fetch] answers [undefined] at once:
    no RPC call is made, nothing is logged, the world is as before. *)
Theorem fetch_nothing_to_ask (programId : option PublicKey.t) (w : World) :
  isReady (connection w) = false ∨ requested programId w = None →
  fetch programId w = (Returned None, w).
Proof.
  unfold requested, fetch, pk. run.
  intros [Hready|Hnone].
  - by rewrite Hready.
  - destruct (isReady (connection w)); simpl; [|done]. by rewrite Hnone.
Qed.

(** X14: for a deployed program whose program data account has a non-zero
    byte at index 12, [fetch] reports the program as upgradable, with the
    authority read from bytes 13 to 44 of that account. *)
Theorem fetch_reads_authority
    (programId : option PublicKey.t) (w : World)
    (p q : PublicKey.t) (info info2 : AccountInfo) (tag : Byte.byte) :
  isReady (connection w) = true →
  requested programId w = Some p →
  answer w p = Returned (Some info) →
  PublicKey.of_bytes (drop 4 (data info)) = Returned q →
  answer (called w p) q = Returned (Some info2) →
  data info2 !! 12%nat = Some tag →
  Z_of_byte tag ≠ 0 →
  fetch programId w =
    (Returned
       (Some {| deployed := true;
                authority :=
                  Some {| PublicKey._bn := BN (take 32 (drop 13 (data info2))) |};
                upgradable := true |}),
     called (called w p) q).
Proof.
  intros Hready Hp Hfirst Hq Hsecond Htag Hnz.
  rewrite (fetch_ready _ _ p) by done.
  unfold fetch_try, answer, called in *. run.
  rewrite Hfirst. simpl. rewrite Hq. simpl. rewrite Hsecond. simpl.
  rewrite Htag, (proj2 (Z.eqb_neq _ _) Hnz). simpl.
  rewrite of_bytes_short; [done|].
  rewrite length_take. lia.
Qed.

(** X15: for a deployed program whose program data account is missing, is
    shorter than 13 bytes or has [0] at index 12, [fetch] reports the
    program as deployed and not upgradable, without authority. *)
Theorem fetch_no_authority
    (programId : option PublicKey.t) (w : World)
    (p q : PublicKey.t) (info : AccountInfo) (second : option AccountInfo) :
  isReady (connection w) = true →
  requested programId w = Some p →
  answer w p = Returned (Some info) →
  PublicKey.of_bytes (drop 4 (data info)) = Returned q →
  answer (called w p) q = Returned second →
  (second = None
   ∨ ∃ info2, second = Some info2
              ∧ ((length (data info2) ≤ 12)%nat
                 ∨ ∃ tag, data info2 !! 12%nat = Some tag ∧ Z_of_byte tag = 0)) →
  fetch programId w =
    (Returned (Some {| deployed := true; authority := None;
                       upgradable := false |}),
     called (called w p) q).
Proof.
  intros Hready Hp Hfirst Hq Hsecond Hcases.
  rewrite (fetch_ready _ _ p) by done.
  unfold fetch_try, answer, called in *. run.
  rewrite Hfirst. simpl. rewrite Hq. simpl. rewrite Hsecond. simpl.
  destruct Hcases as [->|(info2 & -> & [Hshort|(tag & Htag & Hz)])]; simpl.
  - done.
  - by rewrite (lookup_ge_None_2 (data info2) 12).
  - by rewrite Htag, Hz.
Qed.

(** X16: whatever the endpoint answers, a result of [fetch] is one of three
    shapes: not deployed and upgradable without authority; deployed and not
    upgradable without authority; deployed and upgradable with an authority,
    which is a valid public key.  Nothing was logged when there is a
    result. *)
Theorem fetch_result_shapes
    (programId : option PublicKey.t) (w w' : World) (r : OnChain) :
  fetch programId w = (Returned (Some r), w') →
  (r = {| deployed := false; authority := None; upgradable := true |}
   ∨ r = {| deployed := true; authority := None; upgradable := false |}
   ∨ ∃ a, r = {| deployed := true; authority := Some a; upgradable := true |}
          ∧ PublicKey.valid a)
  ∧ console w' = console w.
Proof.
  destruct (isReady (connection w)) eqn:Hready;
    [|by rewrite fetch_idle by eauto].
  destruct (requested programId w) as [p|] eqn:Hp;
    [|by rewrite fetch_idle by eauto].
  rewrite (fetch_ready _ _ p) by done.
  unfold fetch_try, logged. run.
  destruct (respond (connection w) (rpc_calls w) p) as [[info|]|e]; simpl;
    [| by intros [= <- <-]; auto | done].
  destruct (PublicKey.of_bytes (drop 4 (data info))) as [q|e]; simpl; [|done].
  destruct (respond (connection w) (rpc_calls w ++ [p]) q) as [info2|e];
    simpl; [|done].
  destruct (authorityExists info2); simpl; [|by intros [= <- <-]; auto].
  match goal with
  | |- context [PublicKey.of_bytes ?b] =>
      destruct (PublicKey.of_bytes b) as [a|e] eqn:Ea; simpl; [|done]
  end.
  intros [= <- <-]. split; [|done]. right. right. exists a.
  split; [done|]. by eapply PublicKey_of_bytes_valid.
Qed.

(** X17: [fetch] never touches the workspace, the files, the program-info
    state or the connection; it logs at most one line, and only when it
    answers [undefined]. *)
Theorem fetch_leaves_storage (programId : option PublicKey.t) (w : World) :
  let w' := (fetch programId w).2 in
  currentWorkspaceName w' = currentWorkspaceName w
  ∧ files w' = files w
  ∧ fs_ops w' = fs_ops w
  ∧ program_info w' = program_info w
  ∧ connection w' = connection w
  ∧ (console w' = console w
     ∨ (fetch programId w).1 = Returned None
       ∧ ∃ e, console w' =
                console w ++ ["Could not get authority: " +:+ message e]).
Proof.
  destruct (isReady (connection w)) eqn:Hready;
    [|rewrite fetch_idle by eauto; simpl; by auto 10].
  destruct (requested programId w) as [p|] eqn:Hp;
    [|rewrite fetch_idle by eauto; simpl; by auto 10].
  rewrite (fetch_ready _ _ p) by done.
  unfold fetch_try, logged. run.
  repeat case_match; simplify_eq; simpl; repeat split; eauto 10.
Qed.

(** X18: when the data of the program account from byte 4 on is a number of
    more than 32 bytes (a program whose account holds the executable
    itself), no public key can be built from it: [fetch] stops after the
    first call, logs the failure and answers [undefined]. *)
Theorem fetch_long_program_account
    (programId : option PublicKey.t) (w : World)
    (p : PublicKey.t) (info : AccountInfo) :
  isReady (connection w) = true →
  requested programId w = Some p →
  answer w p = Returned (Some info) →
  2 ^ 256 ≤ BN (drop 4 (data info)) →
  fetch programId w =
    (Returned None,
     logged (called w p) "Could not get authority: Invalid public key input").
Proof.
  intros Hready Hp Hfirst Hbig.
  rewrite (fetch_ready _ _ p) by done.
  rewrite (fetch_try_decoding_fails p w info
             {| message := "Invalid public key input" |}); [done..|].
  by apply of_bytes_long.
Qed.

(** X19: [fetchIdl] answers [null] when there is no program id (none given
    and none derived from the state), without any RPC call, and when the IDL
    account does not exist, after the one call that asks for it; nothing is
    logged. *)
Theorem fetchIdl_null (programId : option PublicKey.t) (w : World) :
  requested programId w = None
  ∨ (∃ p idlPk, requested programId w = Some p
                ∧ idlAddress p = Returned idlPk
                ∧ answer w idlPk = Returned None) →
  (fetchIdl programId w).1 = Returned None
  ∧ console (fetchIdl programId w).2 = console w
  ∧ (requested programId w = None → (fetchIdl programId w).2 = w).
Proof.
  intros [Hnone|(p & idlPk & Hp & Hidl & Hans)].
  - unfold requested, fetchIdl, pk in *. run. by rewrite Hnone.
  - rewrite (fetchIdl_start _ _ p idlPk) by done. rewrite Hans.
    split; [done|]. split; [done|]. congruence.
Qed.

(** X20: when the IDL account exists and decoding, inflating and parsing
    succeed, [fetchIdl] returns the parsed IDL with the authority of the
    account; the account is decoded from byte 8 on, and one RPC call was
    made. *)
Theorem fetchIdl_success
    (programId : option PublicKey.t) (w : World) (p idlPk : PublicKey.t)
    (info : AccountInfo) (account : IdlAccount) (inflated : Uint8Array)
    (parsed : value) :
  requested programId w = Some p →
  idlAddress p = Returned idlPk →
  answer w idlPk = Returned (Some info) →
  decodeIdlAccount (drop 8 (data info)) = Returned account →
  inflate (idl_data account) = Returned inflated →
  JSON_parse (toUtf8 inflated) = Returned parsed →
  fetchIdl programId w =
    (Returned (Some {| fetched_idl := parsed;
                       fetched_authority := idl_authority account |}),
     called w idlPk).
Proof.
  intros Hp Hidl Hans Hdecode Hinflate Hparse.
  rewrite (fetchIdl_start _ _ p idlPk) by done. rewrite Hans.
  run. by rewrite Hdecode, Hinflate, Hparse.
Qed.

(** X21: [fetchIdl] makes at most one RPC call, for the IDL address of the
    program, and never logs nor touches the workspace, the files or the
    program-info state. *)
Theorem fetchIdl_one_call (programId : option PublicKey.t) (w : World) :
  let w' := (fetchIdl programId w).2 in
  currentWorkspaceName w' = currentWorkspaceName w
  ∧ files w' = files w
  ∧ fs_ops w' = fs_ops w
  ∧ program_info w' = program_info w
  ∧ console w' = console w
  ∧ (rpc_calls w' = rpc_calls w
     ∨ ∃ p idlPk, requested programId w = Some p
                  ∧ idlAddress p = Returned idlPk
                  ∧ rpc_calls w' = rpc_calls w ++ [idlPk]).
Proof.
  destruct (requested programId w) as [p|] eqn:Hp.
  2: { unfold requested, fetchIdl, pk in *. run. rewrite Hp. simpl. auto 10. }
  destruct (idlAddress p) as [idlPk|e] eqn:Hidl.
  2: { unfold requested, fetchIdl, pk in *. run. rewrite Hp. simpl.
       rewrite Hidl. simpl. auto 10. }
  rewrite (fetchIdl_start _ _ p idlPk) by done.
  unfold answer, called. run.
  repeat case_match; simplify_eq; simpl; repeat split; eauto 10.
Qed.

(** X22: a failure of the steps that follow the RPC call of [fetchIdl]
    (inflating the data, parsing the JSON) reaches the caller like the
    failures before it; a failure of [idlAddress] does so before any call
    is made. *)
Theorem fetchIdl_late_failure
    (programId : option PublicKey.t) (w : World) (p : PublicKey.t) (e : Error) :
  requested programId w = Some p →
  idlAddress p = Thrown e
  ∨ (∃ idlPk info account,
        idlAddress p = Returned idlPk
        ∧ answer w idlPk = Returned (Some info)
        ∧ decodeIdlAccount (drop 8 (data info)) = Returned account
        ∧ (inflate (idl_data account) = Thrown e
           ∨ ∃ inflated, inflate (idl_data account) = Returned inflated
                         ∧ JSON_parse (toUtf8 inflated) = Thrown e)) →
  (fetchIdl programId w).1 = Thrown e
  ∧ console (fetchIdl programId w).2 = console w
  ∧ (idlAddress p = Thrown e → (fetchIdl programId w).2 = w).
Proof.
  intros Hp [Hidl|(idlPk & info & account & Hidl & Hans & Hdecode & Hlate)].
  - unfold requested, fetchIdl, pk in *. run. rewrite Hp. simpl.
    by rewrite Hidl.
  - rewrite (fetchIdl_start _ _ p idlPk) by done. rewrite Hans.
    run. rewrite Hdecode. simpl.
    destruct Hlate as [Hinflate|(inflated & Hinflate & Hparse)].
    + rewrite Hinflate. simpl. split; [done|]. split; [done|]. congruence.
    + rewrite Hinflate. simpl. rewrite Hparse. simpl.
      split; [done|]. split; [done|]. congruence.
Qed.
End Edge.

Lemma getPkStr_parses_back_witness :
  ∃ r, getPkStr Example.open = (Returned r, Example.open)
       ∧ (r = None ↔ derive.pk (program_info Example.open) = None)
       ∧ ∀ s, r = Some s →
              s ≠ ""%string
              ∧ ∃ p, derive.pk (program_info Example.open) = Some p
                     ∧ PublicKey.of_string s = Returned p.
Proof.
  apply (@getPkStr_parses_back Reference.externals Example.open).
  - intros p [= <-]. split; vm_compute; [discriminate | reflexivity].
  - intros k [= <-]. repeat split; vm_compute; reflexivity.
Defined.

Lemma fetch_nothing_to_ask_witness :
  fetch None Scenario.unready = (Returned None, Scenario.unready).
Proof.
  apply (fetch_nothing_to_ask None Scenario.unready). left. reflexivity.
Defined.

Lemma fetch_reads_authority_witness :
  fetch None Example.open =
    (Returned
       (Some {| deployed := true;
                authority :=
                  Some {| PublicKey._bn :=
                            BN (take 32 (drop 13 (data Example.programDataAccount))) |};
                upgradable := true |}),
     called (called Example.open Example.programId) Example.programDataPk).
Proof.
  apply (fetch_reads_authority None Example.open
           Example.programId Example.programDataPk
           Example.programAccount Example.programDataAccount Byte.x01).
  - reflexivity.
  - reflexivity.
  - vm_compute. reflexivity.
  - vm_compute. reflexivity.
  - vm_compute. reflexivity.
  - vm_compute. reflexivity.
  - vm_compute. discriminate.
Defined.

Lemma fetch_no_authority_witness :
  fetch None Scenario.immutable =
    (Returned (Some {| deployed := true; authority := None;
                       upgradable := false |}),
     called (called Scenario.immutable Example.programId) Example.programDataPk).
Proof.
  eapply (fetch_no_authority None Scenario.immutable
            Example.programId Example.programDataPk Example.programAccount).
  - reflexivity.
  - reflexivity.
  - vm_compute. reflexivity.
  - vm_compute. reflexivity.
  - vm_compute. reflexivity.
  - right. eexists. split; [reflexivity|]. right. exists Byte.x00.
    split; vm_compute; reflexivity.
Defined.

Lemma fetch_result_shapes_witness :
  let r := {| deployed := true; authority := Some Example.upgradeAuthority;
              upgradable := true |} in
  (r = {| deployed := false; authority := None; upgradable := true |}
   ∨ r = {| deployed := true; authority := None; upgradable := false |}
   ∨ ∃ a, r = {| deployed := true; authority := Some a; upgradable := true |}
          ∧ PublicKey.valid a)
  ∧ console (fetch None Example.open).2 = console Example.open.
Proof.
  apply (fetch_result_shapes None Example.open (fetch None Example.open).2).
  vm_compute. reflexivity.
Defined.

Lemma fetch_long_program_account_witness :
  fetch None Scenario.old_loader =
    (Returned None,
     logged (called Scenario.old_loader Example.programId)
       "Could not get authority: Invalid public key input").
Proof.
  eapply (fetch_long_program_account None Scenario.old_loader Example.programId).
  - reflexivity.
  - reflexivity.
  - vm_compute. reflexivity.
  - vm_compute. discriminate.
Defined.

Lemma fetchIdl_null_witness :
  (@fetchIdl Reference.externals None Example.fresh).1 = Returned None
  ∧ console (@fetchIdl Reference.externals None Example.fresh).2
    = console Example.fresh
  ∧ (requested None Example.fresh = None →
     (@fetchIdl Reference.externals None Example.fresh).2 = Example.fresh).
Proof.
  apply (@fetchIdl_null Reference.externals None Example.fresh).
  right. exists Example.programId, Scenario.idlPk.
  repeat split; vm_compute; reflexivity.
Defined.

Lemma fetchIdl_success_witness :
  @fetchIdl Reference.externals None Scenario.with_idl =
    (Returned (Some {| fetched_idl := Example.hello_idl;
                       fetched_authority := Example.upgradeAuthority |}),
     called Scenario.with_idl Scenario.idlPk).
Proof.
  apply (@fetchIdl_success Reference.externals None Scenario.with_idl
           Example.programId Scenario.idlPk
           (Scenario.idl_account (Reference.stringify Example.hello_idl))
           {| idl_authority := Example.upgradeAuthority;
              idl_data := list_byte_of_string
                            (Reference.stringify Example.hello_idl) |}
           (list_byte_of_string (Reference.stringify Example.hello_idl))
           Example.hello_idl).
  - reflexivity.
  - vm_compute. reflexivity.
  - vm_compute. reflexivity.
  - vm_compute. reflexivity.
  - vm_compute. reflexivity.
  - vm_compute. reflexivity.
Defined.

Lemma fetchIdl_late_failure_witness :
  let e := {| message := "Unexpected token in JSON" |} in
  (@fetchIdl Reference.externals None Scenario.with_damaged_idl).1 = Thrown e
  ∧ console (@fetchIdl Reference.externals None Scenario.with_damaged_idl).2
    = console Scenario.with_damaged_idl
  ∧ (@idlAddress Reference.externals Example.programId = Thrown e →
     (@fetchIdl Reference.externals None Scenario.with_damaged_idl).2
     = Scenario.with_damaged_idl).
Proof.
  apply (@fetchIdl_late_failure Reference.externals None
           Scenario.with_damaged_idl Example.programId).
  - reflexivity.
  - right. exists Scenario.idlPk. eexists _, _.
    split; [vm_compute; reflexivity|].
    split; [vm_compute; reflexivity|].
    split; [vm_compute; reflexivity|].
    right. eexists. split; vm_compute; reflexivity.
Defined.

End ProgramInfoEdge.
